(** * choochoo: decoding of profile-defined FIT fields

    A shallow embedding of [choochoo/fit/profile/fields.py]: the classes
    [ScaledField], [TypedField], [RowField], [DelegateField], [Zip],
    [CompositeField], [DynamicField], [Row] and the factory [MessageField].

    Python values are a small tagged union, exceptions are an error type,
    generators are computations in a state-and-exception monad whose state
    records what was yielded, what was logged, what was printed and the
    state of the accumulator. *)

From Stdlib Require Import ZArith List String Ascii Bool Lia Permutation.
From Stdlib Require Import Floats.SpecFloat Numbers.DecimalString Strings.Byte.
Import ListNotations.
Local Open Scope string_scope.
Local Open Scope Z_scope.

(** ** Python values and builtins *)

(** The exceptions the module can raise, and the result of a call. *)
Inductive exn : Type :=
| TypeError
| ValueError
| ZeroDivisionError
| OverflowError
| IndexError
| KeyError
| AttributeError
| RecursionError
| MemoryError
| Exception (msg : string).

Inductive Res (X : Type) : Type :=
| Ok (x : X)
| Raise (e : exn).
Arguments Ok {X} x.
Arguments Raise {X} e.

Definition res_bind {X Y} (r : Res X) (k : X -> Res Y) : Res Y :=
  match r with
  | Ok x => k x
  | Raise e => Raise e
  end.

(** Why the interpreter may be unable to build an integer: the machine has
    no memory left for it ([MemoryError]), or it has more digits than any
    integer may have ([OverflowError]). *)
Inductive shortage : Type :=
| OutOfMemory
| TooManyDigits.

Definition shortage_exn (s : shortage) : exn :=
  match s with
  | OutOfMemory => MemoryError
  | TooManyDigits => OverflowError
  end.

(** The values that travel through the module: [None], [int], [float]
    (binary64, as [spec_float] at precision 53 and [emax] 1024) and [str]
    (characters are ASCII code points). *)
Inductive pyval : Type :=
| PNone
| PInt (z : Z)
| PFloat (f : spec_float)
| PStr (s : string).

Definition is_None (v : pyval) : bool :=
  match v with PNone => true | _ => false end.

Definition isinstance_str (v : pyval) : bool :=
  match v with PStr _ => true | _ => false end.

(** [bool(v)]. *)
Definition truthy (v : pyval) : bool :=
  match v with
  | PNone => false
  | PInt z => negb (z =? 0)
  | PFloat (S754_zero _) => false
  | PFloat _ => true
  | PStr s => negb (s =? "")%string
  end.

Definition prec : Z := 53.
Definition emax : Z := 1024.

(** The integer [z] as the float with the same value, exactly. *)
Definition exact_float (z : Z) : spec_float :=
  match z with
  | Z0 => S754_zero false
  | Zpos p => S754_finite false p 0
  | Zneg p => S754_finite true p 0
  end.

(** [float(z)] for an [int]: round to nearest even, [OverflowError] when
    the integer is too large. *)
Definition float_of_int (z : Z) : Res spec_float :=
  match binary_normalize prec emax z 0 false with
  | S754_infinity _ => Raise OverflowError
  | f => Ok f
  end.

(** Exact comparison of a float with an integer, as [==] does. *)
Definition float_eq_int (f : spec_float) (z : Z) : bool :=
  match f with
  | S754_zero _ => z =? 0
  | S754_finite s m e =>
      if 0 <=? e then z =? cond_Zopp s (Zpos m * 2 ^ e)
      else ((Zpos m mod 2 ^ (- e)) =? 0) && (z =? cond_Zopp s (Zpos m / 2 ^ (- e)))
  | _ => false
  end.

(** [a == b]. *)
Definition py_eqb (a b : pyval) : bool :=
  match a, b with
  | PNone, PNone => true
  | PInt x, PInt y => x =? y
  | PFloat x, PFloat y => SFeqb x y
  | PFloat x, PInt y => float_eq_int x y
  | PInt x, PFloat y => float_eq_int y x
  | PStr x, PStr y => (x =? y)%string
  | _, _ => false
  end.

(** [a != b]. *)
Definition py_ne (a b : pyval) : bool := negb (py_eqb a b).

Definition is_zero_float (f : spec_float) : bool :=
  match f with S754_zero _ => true | _ => false end.

Definition float_div (x y : spec_float) : Res pyval :=
  if is_zero_float y then Raise ZeroDivisionError
  else Ok (PFloat (SFdiv prec emax x y)).

(** [a / b], true division. *)
Definition py_truediv (a b : pyval) : Res pyval :=
  match a, b with
  | PInt x, PInt y =>
      if y =? 0 then Raise ZeroDivisionError
      else match SFdiv prec emax (exact_float x) (exact_float y) with
           | S754_infinity _ => Raise OverflowError
           | q => Ok (PFloat q)
           end
  | PFloat x, PFloat y => float_div x y
  | PInt x, PFloat y => res_bind (float_of_int x) (fun x' => float_div x' y)
  | PFloat x, PInt y => res_bind (float_of_int y) (fun y' => float_div x y')
  | _, _ => Raise TypeError
  end.

(** [a - b]. *)
Definition py_sub (a b : pyval) : Res pyval :=
  match a, b with
  | PInt x, PInt y => Ok (PInt (x - y))
  | PFloat x, PFloat y => Ok (PFloat (SFsub prec emax x y))
  | PInt x, PFloat y =>
      res_bind (float_of_int x) (fun x' => Ok (PFloat (SFsub prec emax x' y)))
  | PFloat x, PInt y =>
      res_bind (float_of_int y) (fun y' => Ok (PFloat (SFsub prec emax x y')))
  | _, _ => Raise TypeError
  end.

(** *** Strings *)

(** [c.isspace()] on ASCII. *)
Definition is_space (c : ascii) : bool :=
  let n := Z.of_nat (nat_of_ascii c) in
  ((9 <=? n) && (n <=? 13)) || ((28 <=? n) && (n <=? 32)).

Fixpoint lstrip (s : string) : string :=
  match s with
  | EmptyString => EmptyString
  | String c r => if is_space c then lstrip r else s
  end.

Fixpoint rstrip (s : string) : string :=
  match s with
  | EmptyString => EmptyString
  | String c r =>
      match rstrip r with
      | EmptyString => if is_space c then EmptyString else String c EmptyString
      | r' => String c r'
      end
  end.

(** [s.strip()]. *)
Definition strip (s : string) : string := rstrip (lstrip s).

(** [s.split(sep)] for a one-character separator. *)
Fixpoint str_split (sep : ascii) (s : string) : list string :=
  match s with
  | EmptyString => [EmptyString]
  | String c r =>
      if Ascii.eqb c sep then EmptyString :: str_split sep r
      else match str_split sep r with
           | h :: t => String c h :: t
           | [] => [String c EmptyString]
           end
  end.

Definition digit_of (c : ascii) : option Z :=
  let n := Z.of_nat (nat_of_ascii c) in
  if (48 <=? n) && (n <=? 57) then Some (n - 48) else None.

(** Decimal digits, single underscores allowed between digits. *)
Fixpoint digits_value (acc : Z) (after_digit : bool) (s : string) : option Z :=
  match s with
  | EmptyString => if after_digit then Some acc else None
  | String c r =>
      match digit_of c with
      | Some d => digits_value (acc * 10 + d) true r
      | None =>
          if Ascii.eqb c "_" && after_digit then digits_value acc false r
          else None
      end
  end.

(** [int(s)] for a [str]: surrounding whitespace, an optional sign, decimal
    digits; [None] stands for [ValueError]. *)
Definition int_of_str (s : string) : option Z :=
  match strip s with
  | String "-" r => option_map Z.opp (digits_value 0 false r)
  | String "+" r => digits_value 0 false r
  | r => digits_value 0 false r
  end.

(** [int(f)] for a [float]: truncation towards zero. *)
Definition int_of_float (f : spec_float) : Res Z :=
  match f with
  | S754_zero _ => Ok 0
  | S754_infinity _ => Raise OverflowError
  | S754_nan => Raise ValueError
  | S754_finite s m e =>
      Ok (cond_Zopp s (if 0 <=? e then Zpos m * 2 ^ e else Zpos m / 2 ^ (- e)))
  end.

(** [int(v)]. *)
Definition py_int (v : pyval) : Res Z :=
  match v with
  | PNone => Raise TypeError
  | PInt z => Ok z
  | PFloat f => int_of_float f
  | PStr s => match int_of_str s with
              | Some z => Ok z
              | None => Raise ValueError
              end
  end.

Definition str_of_int (z : Z) : string := NilZero.string_of_int (Z.to_int z).

(** The one-character string holding a double quote. *)
Definition dquote : string := String (ascii_of_nat 34) EmptyString.

(** *** Bytes *)

Definition byte_val (b : byte) : Z := Z.of_N (Byte.to_N b).

Definition byte_of (z : Z) : byte :=
  match Byte.of_N (Z.to_N (z mod 256)) with
  | Some b => b
  | None => x00
  end.

(** The value of a little-endian byte string. *)
Fixpoint le_value (data : list byte) : Z :=
  match data with
  | [] => 0
  | b :: r => byte_val b + 256 * le_value r
  end.

(** The [n] low-order bytes of [z], least significant first. *)
Fixpoint le_bytes (n : nat) (z : Z) : list byte :=
  match n with
  | O => []
  | S n' => byte_of z :: le_bytes n' (z / 256)
  end.

Inductive byteorder : Type := little | big.

(** [int.from_bytes(data, byteorder=order)], unsigned. *)
Definition from_bytes (data : list byte) (order : byteorder) : Z :=
  match order with
  | little => le_value data
  | big => le_value (rev data)
  end.

(** [z.to_bytes(nbytes, byteorder=order)], unsigned. *)
Definition to_bytes (z nbytes : Z) (order : byteorder) : Res (list byte) :=
  if nbytes <? 0 then Raise ValueError
  else if (z <? 0) || (256 ^ nbytes <=? z) then Raise OverflowError
  else let bs := le_bytes (Z.to_nat nbytes) z in
       Ok (match order with little => bs | big => rev bs end).

(** [a >> n]. *)
Definition py_rshift (a n : Z) : Res Z :=
  if n <? 0 then Raise ValueError else Ok (Z.shiftr a n).

(** *** Dictionaries: insertion-ordered, keys compared with [==] *)

Section Dict.
Context {K V : Type} (keq : K -> K -> bool).

Fixpoint dict_get (d : list (K * V)) (k : K) : option V :=
  match d with
  | [] => None
  | (k', v) :: r => if keq k' k then Some v else dict_get r k
  end.

Definition dict_in (d : list (K * V)) (k : K) : bool :=
  match dict_get d k with Some _ => true | None => false end.

Fixpoint dict_set (d : list (K * V)) (k : K) (v : V) : list (K * V) :=
  match d with
  | [] => [(k, v)]
  | (k', v') :: r =>
      if keq k' k then (k', v) :: r else (k', v') :: dict_set r k v
  end.
End Dict.

(** A set as the list of its members in insertion order. *)
Fixpoint set_add (s : list pyval) (v : pyval) : list pyval :=
  match s with
  | [] => [v]
  | x :: r => if py_eqb x v then s else x :: set_add r v
  end.

Definition key_eqb (a b : pyval * pyval) : bool :=
  py_eqb (fst a) (fst b) && py_eqb (snd a) (snd b).

(** ** Rows of the profile table *)

(** [Row]: one profile table entry, a named tuple of sixteen cells. *)
Record Row : Type := {
  msg_name : pyval;
  field_no : pyval;
  field_name : pyval;
  field_type : pyval;
  array : pyval;
  components : pyval;
  scale : pyval;
  offset : pyval;
  units : pyval;
  bits : pyval;
  accumulate : pyval;
  ref_name : pyval;
  ref_value : pyval;
  comment : pyval;
  products : pyval;
  example : pyval
}.

(** [Row.__new__(cls, row)]: the first sixteen cells of [row]. *)
Definition Row_new (row : list pyval) : Res Row :=
  match firstn 16 row with
  | [a; b; c; d; e; f; g; h; i; j; k; l; m; n; o; p] =>
      Ok (Build_Row a b c d e f g h i j k l m n o p)
  | _ => Raise TypeError
  end.

(** ** Collaborators *)

(** Modelled from the spec: the decode type of the type registry, which is
    not part of this module. [type_parse data count endian] is
    [type.parse(data, count, endian)], [None] when nothing can be decoded;
    [type_size] is [type.size]. *)
Record FitType : Type := {
  type_parse : list byte -> Z -> Z -> option (list pyval);
  type_size : Z
}.

(** Modelled from the spec: [types.profile_to_type], the type registry's
    resolution of a profile type tag; [None] when the tag is unknown. *)
Definition Types : Type := pyval -> option FitType.

(** A record sent to [log.warn]: the message and its arguments. *)
Inductive LogRecord : Type :=
| Warn (msg : string) (args : list pyval).

(** What a field yields: [name, (values, units)]. *)
Definition Values : Type := option (list pyval).
Definition Entry : Type := (pyval * (Values * pyval))%type.

(** The references map: field name to [(values, units)]. *)
Definition References : Type := list (pyval * (Values * pyval)).

(** ** Fields *)

(** [ScaledField]; [name] comes from the base class [Named]. *)
Record ScaledField : Type := {
  name : pyval;
  _units : pyval;
  _scale : pyval;
  _offset : pyval;
  _is_scaled : bool;
  _is_accumulate : pyval
}.

(** [ScaledField.__init__]. *)
Definition ScaledField_init (name units scale offset accumulate : pyval)
  : ScaledField :=
  let scale := if is_None scale then PInt 1 else scale in
  let offset := if is_None offset then PInt 0 else offset in
  {| name := name;
     _units := units;
     _scale := scale;
     _offset := offset;
     _is_scaled := py_ne scale (PInt 1) || py_ne offset (PInt 0);
     _is_accumulate := accumulate |}.

(** [TypedField], and [RowField] which adds no attribute. *)
Record TypedField : Type := {
  scaled : ScaledField;
  number : pyval;
  type_ : FitType
}.

(** [CompositeField]: [__components] is the list of [(nbits, DelegateField)]
    pairs; a [DelegateField] has the attributes of a [ScaledField]. *)
Record CompositeField : Type := {
  c_name : pyval;
  c_number : pyval;
  __components : list (Z * ScaledField)
}.

(** [DynamicField]: a [RowField] with a lookup table and the set of
    reference names, kept as the list in which the set is iterated. The
    table is a [WarnDict], a dictionary whose class is not part of this
    module; membership, assignment and the lookup of a key that is present
    are all that is used of it. *)
Record DynamicField : Type := {
  row_field : TypedField;
  __dynamic_lookup : list ((pyval * pyval) * pyval);
  references : list pyval
}.

(** The classes of field objects. *)
Inductive Field : Type :=
| FTyped (t : TypedField)
| FRow (t : TypedField)
| FDelegate (s : ScaledField)
| FComposite (c : CompositeField)
| FDynamic (d : DynamicField).

(** [isinstance(f, RowField)]: [DynamicField] is a subclass of [RowField]. *)
Definition isinstance_RowField (f : Field) : bool :=
  match f with
  | FRow _ | FDynamic _ => true
  | _ => false
  end.

(** [f.type], an attribute of typed fields only. *)
Definition Field_type (f : Field) : Res FitType :=
  match f with
  | FTyped t | FRow t => Ok (type_ t)
  | FDynamic d => Ok (type_ (row_field d))
  | _ => Raise AttributeError
  end.

(** Modelled from the spec: the message context, [message.profile_to_field],
    which is not part of this module; [None] when the name is unknown. *)
Definition Message : Type := pyval -> option Field.

(** ** Effects *)

Section Effects.

(** The state of the accumulator, which the module does not own. *)
Variable A : Type.

(** Everything a call can change: the accumulator, the log, standard
    output and the entries yielded so far. *)
Record World : Type := {
  acc : A;
  warnings : list LogRecord;
  stdout : list string;
  yielded : list Entry
}.

Definition M (X : Type) : Type := World -> World * Res X.

Definition ret {X} (x : X) : M X := fun w => (w, Ok x).

Definition bind {X Y} (m : M X) (k : X -> M Y) : M Y :=
  fun w => match m w with
           | (w', Ok x) => k x w'
           | (w', Raise e) => (w', Raise e)
           end.

Definition raise {X} (e : exn) : M X := fun w => (w, Raise e).

Definition lift {X} (r : Res X) : M X := fun w => (w, r).

(** [yield e]. *)
Definition yield (e : Entry) : M unit :=
  fun w => ({| acc := acc w; warnings := warnings w; stdout := stdout w;
               yielded := yielded w ++ [e] |}, Ok tt).

(** [log.warn], with the message and its arguments. *)
Definition log_warn (msg : string) (args : list pyval) : M unit :=
  fun w => ({| acc := acc w; warnings := warnings w ++ [Warn msg args];
               stdout := stdout w; yielded := yielded w |}, Ok tt).

(** [print(s)]. *)
Definition print (s : string) : M unit :=
  fun w => ({| acc := acc w; warnings := warnings w;
               stdout := stdout w ++ [s]; yielded := yielded w |}, Ok tt).

(** Modelled from the spec: the accumulator, [accumulate(field, values)],
    which is not part of this module: it returns the adjusted values and
    updates its own state. *)
Definition Accumulate : Type := ScaledField -> list pyval -> A -> A * list pyval.

Definition call_accumulate (accumulate : Accumulate) (self : ScaledField)
  (values : list pyval) : M (list pyval) :=
  fun w => let (a, vs) := accumulate self values (acc w) in
           ({| acc := a; warnings := warnings w; stdout := stdout w;
               yielded := yielded w |}, Ok vs).

End Effects.

Arguments Build_World {A} acc warnings stdout yielded.
Arguments acc {A} w.
Arguments warnings {A} w.
Arguments stdout {A} w.
Arguments yielded {A} w.
Arguments ret {A X} x w.
Arguments bind {A X Y} m k w.
Arguments raise {A X} e w.
Arguments lift {A X} r w.
Arguments yield {A} e w.
Arguments log_warn {A} msg args w.
Arguments print {A} s w.
Arguments call_accumulate {A} accumulate self values w.

Notation "x <- m ;; k" := (bind m (fun x => k))
  (at level 61, m at next level, right associativity).
Notation "m ;;; k" := (bind m (fun _ => k))
  (at level 61, right associativity).

(** [tuple(f(x) for x in xs)]: the first exception ends the loop. *)
Fixpoint map_res {X Y} (f : X -> Res Y) (xs : list X) : Res (list Y) :=
  match xs with
  | [] => Ok []
  | x :: r => res_bind (f x) (fun y =>
              res_bind (map_res f r) (fun ys => Ok (y :: ys)))
  end.

(** ** Sample profile data *)

(** Modelled from the spec: a decode type of the type registry for
    one-byte unsigned integers: [count] bytes, each an integer, and nothing
    when the buffer is shorter than [count]. *)
Definition uint8 : FitType :=
  {| type_parse := fun data count _ =>
       if (0 <=? count) && (count <=? Z.of_nat (List.length data))
       then Some (map (fun b => PInt (byte_val b)) (firstn (Z.to_nat count) data))
       else None;
     type_size := 1 |}.

Definition sample_types : Types :=
  fun tag => if py_eqb tag (PStr "uint8") then Some uint8 else None.

(** A row with a field number, a name and the type [uint8]. *)
Definition simple_row (no : Z) (name : string) : Row :=
  {| msg_name := PStr "m"; field_no := PInt no; field_name := PStr name;
     field_type := PStr "uint8"; array := PNone; components := PNone;
     scale := PNone; offset := PNone; units := PNone; bits := PNone;
     accumulate := PNone; ref_name := PNone; ref_value := PNone;
     comment := PNone; products := PNone; example := PNone |}.

(** An override row: a name, no field number, one reference. *)
Definition override_row (name ref value : string) : Row :=
  {| msg_name := PNone; field_no := PNone; field_name := PStr name;
     field_type := PStr "uint8"; array := PNone; components := PNone;
     scale := PNone; offset := PNone; units := PNone; bits := PNone;
     accumulate := PNone; ref_name := PStr ref; ref_value := PStr value;
     comment := PNone; products := PNone; example := PNone |}.

(** A composite row with components [a,b] of [3,5] bits. *)
Definition composite_row : Row :=
  {| msg_name := PStr "m"; field_no := PInt 3; field_name := PStr "ab";
     field_type := PStr "uint8"; array := PNone; components := PStr "a,b";
     scale := PNone; offset := PNone; units := PNone; bits := PStr "3,5";
     accumulate := PNone; ref_name := PNone; ref_value := PNone;
     comment := PNone; products := PNone; example := PNone |}.

(** A plain [RowField] of type [uint8] without scale, offset or units. *)
Definition plain_field (no : Z) (name : string) : TypedField :=
  {| scaled := ScaledField_init (PStr name) PNone PNone PNone PNone;
     number := PInt no;
     type_ := uint8 |}.

(** A message whose fields are the plain fields of the given names. *)
Fixpoint sample_message (names : list string) (name : pyval) : option Field :=
  match names with
  | [] => None
  | n :: r => if py_eqb name (PStr n) then Some (FRow (plain_field 0 n))
              else sample_message r name
  end.

Definition w0 : World unit :=
  {| acc := tt; warnings := []; stdout := []; yielded := [] |}.

(** An accumulator that leaves the values as they are. *)
Definition no_accumulate : Accumulate unit := fun _ values a => (a, values).

(** An accumulator that counts the calls and adds the count to integers. *)
Definition counting_accumulate : Accumulate Z :=
  fun _ values a =>
    (a + 1, map (fun v => match v with PInt z => PInt (z + a + 1) | _ => v end)
                values).

(** The samples hold no float: [repr] and [float] are never reached on
    them, and these two stand for the interpreter's. *)
Definition sample_repr : spec_float -> string := fun _ => "nan".
Definition sample_float : string -> option spec_float := fun _ => None.

(** The dynamic field of the resolution example: a table that maps
    [(A, 1)] to [X] and [(B, 1)] to [Y], and the tracked names in the order
    given. *)
Definition sample_dynamic (names : list pyval) : DynamicField :=
  {| row_field := plain_field 1 "d";
     __dynamic_lookup := [((PStr "A", PInt 1), PStr "X");
                          ((PStr "B", PInt 1), PStr "Y")];
     references := names |}.

(** A message whose field [c] is a composite and whose field [d] is a
    dynamic field. *)
Definition sample_mixed_message (name : pyval) : option Field :=
  if py_eqb name (PStr "c") then
    Some (FComposite {| c_name := PStr "c"; c_number := PInt 0;
                        __components := [] |})
  else if py_eqb name (PStr "d") then
    Some (FDynamic {| row_field := plain_field 1 "d";
                      __dynamic_lookup := [];
                      references := [] |})
  else None.

(** A delegate with scale 2 for the field of the given name. *)
Definition scaled_delegate (name : string) : ScaledField :=
  ScaledField_init (PStr name) PNone (PInt 2) PNone PNone.

(** A component of eight bits over the field of the given name. *)
Definition byte_component (name : string) : Z * ScaledField :=
  (8, ScaledField_init (PStr name) PNone PNone PNone PNone).

(** The composite field [ab] with the given components. *)
Definition sample_composite (components : list (Z * ScaledField)) : Field :=
  FComposite {| c_name := PStr "ab"; c_number := PInt 3;
                __components := components |}.

(** A decode type that returns the given values whatever the buffer. *)
Definition constant_type (values : list pyval) : FitType :=
  {| type_parse := fun _ _ _ => Some values; type_size := 1 |}.

(** A row whose scale is a list of numbers, which [int] does not convert. *)
Definition malformed_row : Row :=
  {| msg_name := PStr "m"; field_no := PInt 1; field_name := PStr "f";
     field_type := PStr "uint8"; array := PNone; components := PNone;
     scale := PStr "100,100"; offset := PNone; units := PNone; bits := PNone;
     accumulate := PNone; ref_name := PNone; ref_value := PNone;
     comment := PNone; products := PNone; example := PNone |}.

(** The composite field of [composite_row]. *)
Definition composite_ab : CompositeField :=
  {| c_name := PStr "ab"; c_number := PInt 3;
     __components := [(3, ScaledField_init (PStr "a") PNone PNone PNone PNone);
                      (5, ScaledField_init (PStr "b") PNone PNone PNone PNone)] |}.

(** A dynamic field [d] whose table sends [(A, 1)] back to [d], and the
    message that holds it. *)
Definition cyclic_dynamic : DynamicField :=
  {| row_field := plain_field 1 "d";
     __dynamic_lookup := [((PStr "A", PInt 1), PStr "d")];
     references := [PStr "A"] |}.

Definition cyclic_message (name : pyval) : option Field :=
  if py_eqb name (PStr "d") then Some (FDynamic cyclic_dynamic) else None.

(** A machine that can build integers of less than [2 ^ 32] bits. *)
Definition sample_memory (n : Z) : option shortage :=
  if n <? 2 ^ 32 then None else Some OutOfMemory.


(** A composite row whose scale is no number. *)
Definition malformed_composite_row : Row :=
  {| msg_name := PStr "m"; field_no := PInt 3; field_name := PStr "ab";
     field_type := PStr "uint8"; array := PNone; components := PStr "a,b";
     scale := PStr "x"; offset := PNone; units := PNone; bits := PStr "3,5";
     accumulate := PNone; ref_name := PNone; ref_value := PNone;
     comment := PNone; products := PNone; example := PNone |}.

(** A references map in which [A] has no values. *)
Definition valueless_references : References := [(PStr "A", (None, PNone))].

(** ** The module *)

Section Fields.

Variable A : Type.

(** [repr] of a float and [float] of a string are the interpreter's. *)
Variable float_repr : spec_float -> string.
Variable float_of_str : string -> option spec_float.

(** The order in which a set is iterated, given its members in insertion
    order: some enumeration of the same members. *)
Variable set_order : list pyval -> list pyval.

(** Whether the interpreter can build the integers of [n] bits and of one
    bit more on the machine it runs on, and the shortage when it cannot. *)
Variable shortage_at : Z -> option shortage.

(** [str(v)]. *)
Definition py_str (v : pyval) : string :=
  match v with
  | PNone => "None"
  | PInt z => str_of_int z
  | PFloat f => float_repr f
  | PStr s => s
  end.

(** [float(v)]. *)
Definition py_float (v : pyval) : Res spec_float :=
  match v with
  | PNone => Raise TypeError
  | PInt z => float_of_int z
  | PFloat f => Ok f
  | PStr s => match float_of_str s with
              | Some f => Ok f
              | None => Raise ValueError
              end
  end.

(** ** [Row.single_int] *)

Definition single_int (value : pyval) : M A pyval :=
  if is_None value then ret PNone
  else match py_int value with
       | Ok z => ret (PInt z)
       | Raise ValueError =>
           log_warn ("Cannot parse " ++ dquote ++ "%s" ++ dquote
                     ++ " as a single integer") [value] ;;;
           ret PNone
       | Raise e => raise e
       end.

(** ** [ScaledField._parse_and_scale] *)

Definition scale_value (self : ScaledField) (value : pyval) : Res pyval :=
  res_bind (py_truediv value (_scale self)) (fun q => py_sub q (_offset self)).

Definition _parse_and_scale (self : ScaledField) (type : FitType)
  (data : list byte) (count endian : Z) (accumulate : Accumulate A) : M A unit :=
  let values := type_parse type data count endian in
  values <- match values with
            | Some values =>
                values <- (if _is_scaled self then
                             (if existsb isinstance_str values
                                 || isinstance_str (_scale self)
                              then print "x" else ret tt) ;;;
                             lift (map_res (scale_value self) values)
                           else ret values) ;;
                values <- (if truthy (_is_accumulate self)
                           then call_accumulate accumulate self values
                           else ret values) ;;
                ret (Some values)
            | None => ret None
            end ;;
  yield (name self, (values, _units self)).

(** ** [TypedField.__init__] and [RowField.__init__] *)

Definition TypedField_init (name field_no units scale offset accumulate
  field_type : pyval) (types : Types) : M A TypedField :=
  let self := ScaledField_init name units scale offset accumulate in
  match types field_type with
  | Some type => ret {| scaled := self; number := field_no; type_ := type |}
  | None => raise KeyError
  end.

Definition RowField_init (row : Row) (types : Types) : M A TypedField :=
  field_no <- single_int (field_no row) ;;
  scale <- single_int (scale row) ;;
  offset <- single_int (offset row) ;;
  accumulate <- single_int (accumulate row) ;;
  TypedField_init (field_name row) field_no (units row) scale offset
                  accumulate (field_type row) types.

(** ** [Zip] *)

(** A generator of [__split]: the values it yields first, and whether it
    then repeats [None] for ever. *)
Definition Gen : Type := (list pyval * bool)%type.

(** [Zip.__split]. *)
Definition __split (field : pyval) (extend : bool) : Gen :=
  (if truthy field
   then map (fun value => PStr (strip value)) (str_split "," (py_str field))
   else [PNone],
   extend).

(** [next(g)], [None] when the generator is exhausted. *)
Definition gen_next (g : Gen) : option (pyval * Gen) :=
  match g with
  | (x :: r, e) => Some (x, (r, e))
  | ([], true) => Some (PNone, ([], true))
  | ([], false) => None
  end.

(** One item of every generator, or [None] as soon as one is exhausted. *)
Fixpoint nexts (gs : list Gen) : option (list pyval * list Gen) :=
  match gs with
  | [] => Some ([], [])
  | g :: r =>
      match gen_next g with
      | None => None
      | Some (x, g') =>
          match nexts r with
          | None => None
          | Some (xs, r') => Some (x :: xs, g' :: r')
          end
      end
  end.

(** [zip] of a finite first generator and the others. *)
Fixpoint zip_gens (first : list pyval) (rest : list Gen) : list (list pyval) :=
  match first with
  | [] => []
  | x :: first' =>
      match nexts rest with
      | None => []
      | Some (xs, rest') => (x :: xs) :: zip_gens first' rest'
      end
  end.

(** The generators of the fields numbered from [n] on. *)
Fixpoint splits (n : Z) (fields : list pyval) : list Gen :=
  match fields with
  | [] => []
  | field :: r => __split field (1 <? n) :: splits (n + 1) r
  end.

(** [Zip._zip], applied to the list of its arguments. *)
Definition _zip (fields : list pyval) : list (list pyval) :=
  match splits 0 fields with
  | [] => []
  | (first, _) :: rest => zip_gens first rest
  end.

(** ** [CompositeField.__init__] *)

Definition optional_float (v : pyval) : Res pyval :=
  if is_None v then Ok PNone
  else res_bind (py_float v) (fun f => Ok (PFloat f)).

(** One turn of the loop over the zipped attributes. *)
Definition component (t : list pyval) : Res (Z * ScaledField) :=
  match t with
  | [name; bits; units; scale; offset; accumulate] =>
      res_bind (py_int bits) (fun nbits =>
      res_bind (optional_float scale) (fun scale =>
      res_bind (optional_float offset) (fun offset =>
      Ok (nbits, ScaledField_init name units scale offset accumulate))))
  | _ => Raise ValueError
  end.

Definition CompositeField_init (row : Row) : M A CompositeField :=
  number <- single_int (field_no row) ;;
  components <- lift (map_res component
                        (_zip [components row; bits row; units row;
                               scale row; offset row; accumulate row])) ;;
  ret {| c_name := field_name row; c_number := number;
         __components := components |}.

(** ** [DynamicField.__init__] *)

(** Modelled from the spec: the lookahead cursor [rows], which is not part
    of this module, as the rows that follow the current one, [None] for a
    blank row; [rows.peek()] is the next row without consuming it and
    [rows.lookahead()] iterates over the following rows. *)
Definition Rows : Type := list (option Row).

Definition peek (rows : Rows) : option Row :=
  match rows with
  | [] => None
  | row :: _ => row
  end.

Definition lookahead (rows : Rows) : list (option Row) := rows.

(** [row and row.field_name and row.field_no is None]. *)
Definition is_override (row : option Row) : bool :=
  match row with
  | Some row => truthy (field_name row) && is_None (field_no row)
  | None => false
  end.

(** The body of the inner loop: one [(name, value)] pair of an override
    row is added to the set of references and to the lookup table. *)
Definition register (field_name : pyval)
  (st : list pyval * list ((pyval * pyval) * pyval)) (t : list pyval)
  : list pyval * list ((pyval * pyval) * pyval) :=
  match t with
  | [name; value] =>
      (set_add (fst st) name, dict_set key_eqb (snd st) (name, value) field_name)
  | _ => st
  end.

(** The loop over [rows.lookahead()], which breaks at the first row that
    is not an override. *)
Fixpoint lookahead_loop (rows : list (option Row))
  (st : list pyval * list ((pyval * pyval) * pyval))
  : list pyval * list ((pyval * pyval) * pyval) :=
  match rows with
  | [] => st
  | row :: rest =>
      if is_override row then
        match row with
        | Some row =>
            lookahead_loop rest
              (fold_left (register (field_name row))
                         (_zip [ref_name row; ref_value row]) st)
        | None => st
        end
      else st
  end.

Definition DynamicField_init (row : Row) (rows : Rows) (types : Types)
  : M A DynamicField :=
  self <- RowField_init row types ;;
  let st := lookahead_loop (lookahead rows) ([], []) in
  ret {| row_field := self;
         __dynamic_lookup := snd st;
         references := set_order (fst st) |}.

(** ** [MessageField] *)

Definition MessageField (row : Row) (rows : Rows) (types : Types) : M A Field :=
  if truthy (components row) then
    c <- CompositeField_init row ;; ret (FComposite c)
  else
    let peek := peek rows in
    if is_override peek then
      d <- DynamicField_init row rows types ;; ret (FDynamic d)
    else
      r <- RowField_init row types ;; ret (FRow r).

(** ** [parse] *)

(** [['little', 'big'][endian]]. *)
Definition byteorder_of (endian : Z) : Res byteorder :=
  if (endian =? 0) || (endian =? -2) then Ok little
  else if (endian =? 1) || (endian =? -1) then Ok big
  else Raise IndexError.

(** [DelegateField.size]. *)
Definition DelegateField_size (self : ScaledField) (message : Message) : Res Z :=
  match message (name self) with
  | None => Raise KeyError
  | Some delegate => res_bind (Field_type delegate) (fun type => Ok (type_size type))
  end.

(** Integers of fewer bits than this (8 KiB) are built on every machine. *)
Definition small_shift : Z := 65536.

(** [(1 << n) - 1]: the mask of [n] bits, which the interpreter builds
    from the integer [1 << n] of [n + 1] bits when it can build both. *)
Definition mask_of (n : Z) : Res Z :=
  if n <? 0 then Raise ValueError
  else if n <? small_shift then Ok (Z.shiftl 1 n - 1)
  else match shortage_at n with
       | None => Ok (Z.shiftl 1 n - 1)
       | Some s => Raise (shortage_exn s)
       end.

(** The loop of [CompositeField.parse] over the components, [bits] being
    the running integer and [parse_field] the call of [field.parse]. *)
Fixpoint composite_loop (parse_field : ScaledField -> list byte -> M A unit)
  (message : Message) (order : byteorder) (bits : Z)
  (components : list (Z * ScaledField)) : M A unit :=
  match components with
  | [] => ret tt
  | (nbits, field) :: rest =>
      size <- lift (DelegateField_size field message) ;;
      let nbytes := Z.max ((nbits + 7) / 8) size in
      mask <- lift (mask_of bits) ;;
      data <- lift (to_bytes (Z.land bits mask) nbytes order) ;;
      bits <- lift (py_rshift bits nbits) ;;
      parse_field field data ;;;
      composite_loop parse_field message order bits rest
  end.

(** [references[name][0][0]]: drop the units and take the first value. *)
Definition first_value (refs : References) (name : pyval) : Res pyval :=
  match dict_get py_eqb refs name with
  | None => Raise KeyError
  | Some (None, _) => Raise TypeError
  | Some (Some [], _) => Raise IndexError
  | Some (Some (value :: _), _) => Ok value
  end.

(** The loop of [DynamicField.parse] over [self.references]:
    [parse_override] is the delegation to the field named by the table,
    [fallback] is what follows the loop. *)
Fixpoint dynamic_loop (parse_override : pyval -> M A unit) (fallback : M A unit)
  (self : DynamicField) (refs : References) (names : list pyval) : M A unit :=
  match names with
  | [] => fallback
  | name :: rest =>
      if dict_in py_eqb refs name then
        value <- lift (first_value refs name) ;;
        let lookup := (name, value) in
        match dict_get key_eqb (__dynamic_lookup self) lookup with
        | Some field_name => parse_override field_name
        | None => dynamic_loop parse_override fallback self refs rest
        end
      else dynamic_loop parse_override fallback self refs rest
  end.

(** [message.profile_to_field(name)]. *)
Definition profile_to_field (message : Message) (name : pyval) : M A Field :=
  match message name with
  | Some field => ret field
  | None => raise KeyError
  end.

(** [self.parse(data, count, endian, references, accumulate, message)] for
    every class of field; [fuel] bounds the depth of the calls, which the
    interpreter bounds with [RecursionError]. *)
Fixpoint parse (fuel : nat) (self : Field) (data : list byte) (count endian : Z)
  (refs : References) (accumulate : Accumulate A) (message : Message) : M A unit :=
  match fuel with
  | O => raise RecursionError
  | S fuel =>
      match self with
      | FTyped t | FRow t =>
          _parse_and_scale (scaled t) (type_ t) data count endian accumulate
      | FDelegate s =>
          delegate <- profile_to_field message (name s) ;;
          if isinstance_RowField delegate then
            type <- lift (Field_type delegate) ;;
            _parse_and_scale s type data count endian accumulate
          else if _is_scaled s then
            raise (Exception "Scaled component is not a simple field")
          else
            parse fuel delegate data count endian refs accumulate message
      | FComposite c =>
          byteorder <- lift (byteorder_of endian) ;;
          let bits := from_bytes data byteorder in
          composite_loop
            (fun field data =>
               parse fuel (FDelegate field) data 1 endian refs accumulate message)
            message byteorder bits (__components c)
      | FDynamic d =>
          dynamic_loop
            (fun field_name =>
               field <- profile_to_field message field_name ;;
               parse fuel field data count endian refs accumulate message)
            (log_warn ("Could not resolve dynamic field "
                         ++ py_str (name (scaled (row_field d)))) [] ;;;
             _parse_and_scale (scaled (row_field d)) (type_ (row_field d))
                             data count endian accumulate)
            d refs (references d)
      end
  end.

(** ** Properties *)

(** The world after one more warning, and after one more entry. *)
Definition warned (w : World A) (msg : string) (args : list pyval) : World A :=
  {| acc := acc w; warnings := warnings w ++ [Warn msg args];
     stdout := stdout w; yielded := yielded w |}.

Definition emitted (w : World A) (e : Entry) : World A :=
  {| acc := acc w; warnings := warnings w; stdout := stdout w;
     yielded := yielded w ++ [e] |}.

(** The values a scaled field computes from the decoded ones:
    [tuple(value / scale - offset for value in values)]. *)
Definition scale_values (self : ScaledField) (values : list pyval)
  : Res (list pyval) :=
  map_res (fun v => res_bind (py_truediv v (_scale self))
                             (fun q => py_sub q (_offset self))) values.

(** The values [__split] yields for a field before any padding. *)
Definition split_values (field : pyval) : list pyval := fst (__split field false).

(** The [i]-th tuple of the lockstep walk: the [i]-th value of each of the
    first two lists, and for every later list its [i]-th value or [None]
    once the list is exhausted. *)
Definition lockstep (first second : list pyval) (others : list (list pyval))
  (i : nat) : list pyval :=
  nth i first PNone :: nth i second PNone
  :: map (fun l => nth i l PNone) others.

(** An override row: a row with a field name and no field number. *)
Definition named_without_number (row : Row) : Prop :=
  truthy (field_name row) = true /\ field_no row = PNone.

(** The resolution table registered from a list of override rows: every
    [(name, value)] pair of the row's zipped reference names and values
    maps to the row's field name. *)
Definition lookup_of (overrides : list Row) : list ((pyval * pyval) * pyval) :=
  snd (fold_left
         (fun st row => fold_left (register (field_name row))
                                  (_zip [ref_name row; ref_value row]) st)
         overrides ([], [])).

(** The rows the lookahead takes: the longest run of override rows at the
    head of [rows]. *)
Fixpoint leading_overrides (rows : Rows) : list Row :=
  match rows with
  | Some row :: rest =>
      if truthy (field_name row) && is_None (field_no row)
      then row :: leading_overrides rest
      else []
  | _ => []
  end.

(** A tracked reference name that does not resolve: it is absent from the
    references map, or its first value has no entry in the table. *)
Definition unresolved (d : DynamicField) (refs : References) (name : pyval)
  : Prop :=
  dict_in py_eqb refs name = false
  \/ exists value,
       first_value refs name = Ok value
       /\ dict_get key_eqb (__dynamic_lookup d) (name, value) = None.

(** The exceptions of the arithmetic of scaling. *)
Definition arithmetic (e : exn) : Prop :=
  e = TypeError \/ e = ZeroDivisionError \/ e = OverflowError.

(** The bits declared by a list of components. *)
Definition total_bits (components : list (Z * ScaledField)) : Z :=
  fold_right (fun c n => fst c + n) 0 components.

(** The world after one more line on standard output, and with another
    state of the accumulator. *)
Definition printed (w : World A) (s : string) : World A :=
  {| acc := acc w; warnings := warnings w; stdout := stdout w ++ [s];
     yielded := yielded w |}.

Definition with_acc (w : World A) (a : A) : World A :=
  {| acc := a; warnings := warnings w; stdout := stdout w;
     yielded := yielded w |}.

(** A number: an [int] or a [float]. *)
Definition is_number (v : pyval) : bool :=
  match v with PInt _ | PFloat _ => true | _ => false end.

(** [None] or an [int]. *)
Definition none_or_int (v : pyval) : Prop := v = PNone \/ exists z, v = PInt z.

(** Not a [float]. *)
Definition not_float (v : pyval) : bool :=
  match v with PFloat _ => false | _ => true end.

(** The number of occurrences of a character in a string. *)
Fixpoint count_char (c : ascii) (s : string) : nat :=
  match s with
  | EmptyString => O
  | String c' r => if Ascii.eqb c' c then S (count_char c r) else count_char c r
  end.

(** What [__split] can yield: [None], or a string without whitespace at
    either end. *)
Definition split_value (v : pyval) : Prop :=
  v = PNone \/ exists s, v = PStr s /\ strip s = s.

(** A field whose scale and offset are not strings. *)
Definition numeric_scaling (s : ScaledField) : Prop :=
  isinstance_str (_scale s) = false /\ isinstance_str (_offset s) = false.

(** A component whose name the message resolves to a [RowField] or a
    [DynamicField]. *)
Definition row_component (message : Message) (p : Z * ScaledField) : Prop :=
  exists f, message (name (snd p)) = Some f /\ isinstance_RowField f = true.


(** The state of the loop of [DynamicField.__init__] -- the references in
    the order of insertion and the table -- is consistent: the references
    are values of [__split] without repetition, the keys of the table are
    distinct pairs of such values, the name of every key is a reference,
    every reference is the name of a key, and every field name in the
    table satisfies [P]. *)
Definition consistent (P : pyval -> Prop)
  (st : list pyval * list ((pyval * pyval) * pyval)) : Prop :=
  Forall split_value (fst st)
  /\ NoDup (fst st)
  /\ NoDup (map fst (snd st))
  /\ (forall k fn, In (k, fn) (snd st) ->
        split_value (fst k) /\ split_value (snd k) /\ In (fst k) (fst st) /\ P fn)
  /\ (forall n, In n (fst st) -> exists v fn, In ((n, v), fn) (snd st)).






Lemma bind_ok {X Y} (m : M A X) (k : X -> M A Y) w w' x :
  m w = (w', Ok x) -> bind m k w = k x w'.
Proof. intros H. unfold bind. now rewrite H. Qed.

Lemma bind_raise {X Y} (m : M A X) (k : X -> M A Y) w w' e :
  m w = (w', Raise e) -> bind m k w = (w', Raise e).
Proof. intros H. unfold bind. now rewrite H. Qed.

(** C2 (amended): when the type registry decodes nothing from the buffer,
    [_parse_and_scale] neither scales nor accumulates and yields exactly
    one entry, the field's name with the absent value [None] and the
    field's units; so does the [parse] of every typed field and row
    field. *)
Theorem parse_and_scale_no_values :
  forall (self : ScaledField) (type : FitType) data count endian
         (accumulate : Accumulate A) (w : World A),
    type_parse type data count endian = None ->
    _parse_and_scale self type data count endian accumulate w
    = (emitted w (name self, (None, _units self)), Ok tt)
    /\ forall fuel t refs message,
        scaled t = self -> type_ t = type ->
        parse (S fuel) (FRow t) data count endian refs accumulate message w
        = (emitted w (name self, (None, _units self)), Ok tt)
        /\ parse (S fuel) (FTyped t) data count endian refs accumulate message w
           = (emitted w (name self, (None, _units self)), Ok tt).
Proof.
  intros self type data count endian accumulate w Hnone.
  assert (Hp : _parse_and_scale self type data count endian accumulate w
               = (emitted w (name self, (None, _units self)), Ok tt)).
  { unfold _parse_and_scale. rewrite Hnone. reflexivity. }
  split; [exact Hp|].
  intros fuel t refs message Hs Ht. simpl. rewrite Hs, Ht. now split.
Qed.

(** [print] and [call_accumulate] leave the yielded entries alone. *)
Lemma stub_print_yielded (b : bool) (w : World A) :
  exists w', (if b then print "x" else ret tt) w = (w', Ok tt)
             /\ yielded w' = yielded w /\ acc w' = acc w.
Proof. destruct b; eexists; (split; [reflexivity|]); now split. Qed.

(** C4 (amended): [scale] defaults to 1 and [offset] to 0; the field is
    scaled iff [scale != 1] or [offset != 0]; when it is scaled every
    decoded value [v] becomes [v / scale - offset], elementwise, otherwise
    the values are the decoded ones; and the emitted values are these
    values only when the accumulate flag is not set: when it is set they
    are what the accumulator returns for them. *)
Theorem ScaledField_scaling :
  forall name units scale offset flag type data count endian
         (accumulate : Accumulate A) (w : World A) raw,
    let self := ScaledField_init name units scale offset flag in
    let result := _parse_and_scale self type data count endian accumulate w in
    let through_accumulator values :=
      if truthy flag then snd (accumulate self values (acc w)) else values in
    type_parse type data count endian = Some raw ->
    (scale = PNone -> _scale self = PInt 1)
    /\ (offset = PNone -> _offset self = PInt 0)
    /\ (_is_scaled self = true <->
        py_eqb (_scale self) (PInt 1) = false
        \/ py_eqb (_offset self) (PInt 0) = false)
    /\ (_is_scaled self = true ->
        forall values, scale_values self raw = Ok values ->
          snd result = Ok tt
          /\ yielded (fst result)
             = (yielded w ++ [(name, (Some (through_accumulator values), units))])%list)
    /\ (_is_scaled self = false ->
        snd result = Ok tt
        /\ yielded (fst result)
           = (yielded w ++ [(name, (Some (through_accumulator raw), units))])%list)
    /\ (_is_scaled self = false -> truthy flag = false ->
        result = (emitted w (name, (Some raw, units)), Ok tt)).
Proof.
  intros name0 units0 scale0 offset0 flag type data count endian accumulate w raw
         self result through Hraw.
  split; [intros ->; reflexivity|].
  split; [intros ->; reflexivity|].
  split.
  { unfold self; simpl. unfold py_ne.
    rewrite orb_true_iff, !negb_true_iff. apply iff_refl. }
  assert (Hacc : forall values w1,
             yielded w1 = yielded w -> acc w1 = acc w ->
             exists w2,
               bind (if truthy (_is_accumulate self)
                     then call_accumulate accumulate self values
                     else ret values)
                    (fun values => ret (Some values)) w1
               = (w2, Ok (Some (through values)))
               /\ yielded w2 = yielded w).
  { intros values w1 Hy Ha. unfold through. simpl.
    destruct (truthy flag).
    - unfold bind, call_accumulate, ret. rewrite Ha.
      destruct (accumulate self values (acc w)) as [a vs]. simpl.
      eexists; split; [reflexivity|exact Hy].
    - eexists; split; [reflexivity|exact Hy]. }
  split.
  { intros Hs values Hvalues. unfold result, _parse_and_scale.
    rewrite Hraw, Hs.
    destruct (stub_print_yielded
                (existsb isinstance_str raw || isinstance_str (_scale self)) w)
      as (w1 & Hprint & Hy & Ha).
    destruct (Hacc values w1 Hy Ha) as (w2 & Hstep & Hy2).
    unfold scale_values in Hvalues.
    erewrite bind_ok.
    2:{ erewrite bind_ok; [exact Hstep|].
        erewrite bind_ok; [|exact Hprint].
        unfold lift, scale_value. rewrite Hvalues. reflexivity. }
    unfold yield; simpl. now rewrite Hy2. }
  split.
  { intros Hs. unfold result, _parse_and_scale. rewrite Hraw, Hs.
    destruct (Hacc raw w eq_refl eq_refl) as (w2 & Hstep & Hy2).
    erewrite bind_ok.
    2:{ erewrite bind_ok; [exact Hstep|reflexivity]. }
    unfold yield; simpl. now rewrite Hy2. }
  intros Hs Hflag. unfold result, _parse_and_scale. rewrite Hraw, Hs.
  change (_is_accumulate self) with flag. rewrite Hflag. reflexivity.
Qed.






Lemma nexts_padded (ls : list (list pyval)) :
  nexts (map (fun l => (l, true)) ls)
  = Some (map (fun l => nth 0 l PNone) ls, map (fun l => (tl l, true)) ls).
Proof.
  induction ls as [|l ls IH]; [reflexivity|].
  simpl. rewrite IH. destruct l; reflexivity.
Qed.

Lemma nth_succ_tl (i : nat) (l : list pyval) :
  nth (S i) l PNone = nth i (tl l) PNone.
Proof. destruct l; [destruct i|]; reflexivity. Qed.

Lemma zip_gens_lockstep (first : list pyval) :
  forall (second : list pyval) (others : list (list pyval)),
    zip_gens first ((second, false) :: map (fun l => (l, true)) others)
    = map (lockstep first second others)
          (seq 0 (Nat.min (List.length first) (List.length second))).
Proof.
  induction first as [|x first IH]; intros second others; [reflexivity|].
  destruct second as [|y second]; [reflexivity|].
  cbn [zip_gens nexts gen_next]. rewrite nexts_padded.
  rewrite <- (map_map (@tl pyval) (fun l => (l, true))), IH.
  cbn [List.length Nat.min seq map]. f_equal.
  rewrite <- seq_shift, map_map.
  apply map_ext. intros i. unfold lockstep. cbn [nth].
  do 2 f_equal. rewrite map_map. apply map_ext. intros l.
  symmetry. apply nth_succ_tl.
Qed.

Lemma splits_extended (fields : list pyval) :
  forall n, 1 < n ->
    splits n fields = map (fun f => (split_values f, true)) fields.
Proof.
  induction fields as [|f fields IH]; intros n Hn; [reflexivity|].
  cbn [splits map]. rewrite IH by lia.
  replace (1 <? n) with true by (symmetry; apply Z.ltb_lt; exact Hn).
  reflexivity.
Qed.

(** C9 (amended): [_zip] walks the split lists in lockstep and yields one
    tuple per entry of the shorter of the first two lists, neither of
    which is padded; every list from the third on is padded with [None],
    so a short list among these drops no tuple. *)
Theorem zip_lockstep :
  forall (first second : pyval) (others : list pyval),
    _zip (first :: second :: others)
    = map (lockstep (split_values first) (split_values second)
                    (map split_values others))
          (seq 0 (Nat.min (List.length (split_values first))
                          (List.length (split_values second)))).
Proof.
  intros first second others. unfold _zip.
  cbn [splits]. rewrite (splits_extended others (0 + 1 + 1)) by lia.
  change (__split first (1 <? 0)) with (split_values first, false).
  change (__split second (1 <? 0 + 1)) with (split_values second, false).
  rewrite <- (map_map split_values (fun l => (l, true))).
  apply zip_gens_lockstep.
Qed.

Lemma is_None_true (v : pyval) : is_None v = true <-> v = PNone.
Proof. destruct v; simpl; split; congruence. Qed.

Lemma leading_overrides_split (rows : Rows) :
  exists rest,
    rows = (map Some (leading_overrides rows) ++ rest)%list
    /\ Forall named_without_number (leading_overrides rows)
    /\ is_override (peek rest) = false.
Proof.
  induction rows as [|[row|] rows (rest & Hrows & Hall & Hrest)].
  - exists []. repeat split; constructor.
  - cbn [leading_overrides].
    destruct (truthy (field_name row) && is_None (field_no row)) eqn:E.
    + exists rest. cbn [map app]. rewrite <- Hrows. repeat split; auto.
      constructor; [|exact Hall].
      apply andb_true_iff in E. destruct E as [E1 E2].
      split; [exact E1|now apply is_None_true].
    + exists (Some row :: rows). repeat split; [constructor|exact E].
  - exists (None :: rows). repeat split; constructor.
Qed.

Lemma lookahead_loop_run (overrides : list Row) :
  forall rest st,
    Forall named_without_number overrides ->
    is_override (peek rest) = false ->
    lookahead_loop (map Some overrides ++ rest) st
    = fold_left
        (fun st row => fold_left (register (field_name row))
                                 (_zip [ref_name row; ref_value row]) st)
        overrides st.
Proof.
  induction overrides as [|row overrides IH]; intros rest st Hall Hrest.
  - destruct rest as [|r rest]; [reflexivity|].
    cbn [map app lookahead_loop fold_left]. cbn [peek] in Hrest.
    now rewrite Hrest.
  - inversion Hall as [|? ? [Hname Hno] Hall']; subst.
    cbn [map app lookahead_loop fold_left is_override].
    rewrite Hname, Hno. cbn [is_None andb]. now apply IH.
Qed.

(** C8: the factory returns a [CompositeField] exactly when the row's
    components are non-empty; otherwise a [DynamicField] exactly when the
    peeked next row has a field name and no field number, and then the
    resolution table is registered from exactly the run of such rows that
    follows, which the first blank row or row with a field number ends;
    otherwise a plain [RowField]. *)
Theorem MessageField_dispatch :
  forall (row : Row) (rows : Rows) (types : Types) (w w' : World A) (field : Field),
    MessageField row rows types w = (w', Ok field) ->
    match field with
    | FComposite _ => truthy (components row) = true
    | FDynamic d =>
        truthy (components row) = false
        /\ is_override (peek rows) = true
        /\ exists overrides rest,
            rows = (map Some overrides ++ rest)%list
            /\ Forall named_without_number overrides
            /\ is_override (peek rest) = false
            /\ __dynamic_lookup d = lookup_of overrides
    | FRow _ =>
        truthy (components row) = false /\ is_override (peek rows) = false
    | FTyped _ | FDelegate _ => False
    end.
Proof.
  intros row rows types w w' field. unfold MessageField.
  destruct (truthy (components row)) eqn:Hc.
  - unfold bind. destruct (CompositeField_init row w) as [w1 [c|e]];
      unfold ret; intros H; inversion H; subst. reflexivity.
  - destruct (is_override (peek rows)) eqn:Hp.
    + unfold DynamicField_init, bind.
      destruct (RowField_init row types w) as [w1 [r|e]];
        unfold ret; intros H; inversion H; subst.
      split; [reflexivity|]. split; [reflexivity|].
      destruct (leading_overrides_split rows) as (rest & Hrows & Hall & Hrest).
      exists (leading_overrides rows), rest.
      repeat split; auto.
      cbn [__dynamic_lookup]. unfold lookahead, lookup_of.
      rewrite Hrows at 1. now rewrite lookahead_loop_run.
    + unfold bind. destruct (RowField_init row types w) as [w1 [r|e]];
        unfold ret; intros H; inversion H; subst. now split.
Qed.

Lemma dynamic_loop_unresolved (parse_override : pyval -> M A unit)
  (fallback : M A unit) (d : DynamicField) (refs : References) :
  forall before after,
    Forall (unresolved d refs) before ->
    dynamic_loop parse_override fallback d refs (before ++ after)
    = dynamic_loop parse_override fallback d refs after.
Proof.
  induction before as [|name before IH]; intros after Hall; [reflexivity|].
  inversion Hall as [|? ? Hname Hall']; subst.
  cbn [app dynamic_loop].
  destruct Hname as [Hout|(value & Hvalue & Hget)].
  - rewrite Hout. now apply IH.
  - destruct (dict_in py_eqb refs name); [|now apply IH].
    rewrite Hvalue. unfold bind at 1, lift at 1. rewrite Hget. now apply IH.
Qed.

(** C3 (amended): [DynamicField.parse] is first-match-wins over the
    tracked reference names in the order in which the set that holds them
    is iterated: when every name before [name] in that order is absent
    from the references map or has a first value without entry in the
    table, and [name] is in the references map with a first value that
    the table maps to [field_name], the call is delegated entirely to the
    field of that name in the message, and no later name is looked at. *)
Theorem DynamicField_parse_first_match :
  forall (d : DynamicField) (refs : References) (before after : list pyval)
         (name value field_name : pyval),
    references d = (before ++ name :: after)%list ->
    Forall (unresolved d refs) before ->
    dict_in py_eqb refs name = true ->
    first_value refs name = Ok value ->
    dict_get key_eqb (__dynamic_lookup d) (name, value) = Some field_name ->
    forall fuel data count endian (accumulate : Accumulate A) message (w : World A),
      parse (S fuel) (FDynamic d) data count endian refs accumulate message w
      = (field <- profile_to_field message field_name ;;
         parse fuel field data count endian refs accumulate message) w.
Proof.
  intros d refs before after name0 value field_name0 Hrefs Hbefore Hin Hvalue Hget
         fuel data count endian accumulate message w.
  cbn [parse]. rewrite Hrefs, dynamic_loop_unresolved by exact Hbefore.
  cbn [dynamic_loop]. rewrite Hin, Hvalue.
  unfold bind at 1, lift at 1. now rewrite Hget.
Qed.

(** The fallback of [DynamicField.parse]: when every tracked reference
    name is absent from the references map or has a first value without
    entry in the table, a [DynamicField] built from a row logs that it
    could not be resolved and then decodes exactly as the plain
    [RowField] built from the same row does, with the field's own type. *)
Theorem DynamicField_parse_fallback :
  forall (row : Row) (rows : Rows) (types : Types) (w0 w1 : World A)
         (d : DynamicField) (refs : References),
    DynamicField_init row rows types w0 = (w1, Ok d) ->
    Forall (unresolved d refs) (references d) ->
    exists r : TypedField,
      RowField_init row types w0 = (w1, Ok r)
      /\ forall fuel data count endian (accumulate : Accumulate A) message
                (w : World A),
          parse (S fuel) (FDynamic d) data count endian refs accumulate message w
          = parse (S fuel) (FRow r) data count endian refs accumulate message
              (warned w ("Could not resolve dynamic field " ++ py_str (field_name row))
                      []).
Proof.
  intros row rows types w0 w1 d refs Hinit Hall.
  unfold DynamicField_init, bind in Hinit.
  destruct (RowField_init row types w0) as [w2 [r|e]] eqn:Hrow;
    unfold ret in Hinit; inversion Hinit; subst; clear Hinit.
  exists r. split; [reflexivity|].
  intros fuel data count endian accumulate message w.
  cbn [parse row_field references] in *.
  rewrite <- (app_nil_r (set_order _)).
  rewrite dynamic_loop_unresolved by exact Hall.
  cbn [dynamic_loop].
  assert (Hname : name (scaled r) = field_name row).
  { unfold RowField_init, bind in Hrow.
    repeat match type of Hrow with
           | context [single_int ?v w0] => destruct (single_int v w0) as [? [?|?]]
           | context [single_int ?v ?w'] => destruct (single_int v w') as [? [?|?]]
           end; try discriminate.
    unfold TypedField_init in Hrow.
    destruct (types (field_type row)); inversion Hrow; reflexivity. }
  rewrite Hname. reflexivity.
Qed.

Lemma float_of_int_exn (z : Z) (e : exn) :
  float_of_int z = Raise e -> arithmetic e.
Proof.
  unfold float_of_int, arithmetic.
  destruct (binary_normalize prec emax z 0 false); intros H; inversion H; auto.
Qed.

Lemma float_div_exn (x y : spec_float) (e : exn) :
  float_div x y = Raise e -> arithmetic e.
Proof.
  unfold float_div, arithmetic.
  destruct (is_zero_float y); intros H; inversion H; auto.
Qed.

Lemma py_truediv_exn (a b : pyval) (e : exn) :
  py_truediv a b = Raise e -> arithmetic e.
Proof.
  destruct a as [|x|x|x], b as [|y|y|y]; cbn [py_truediv];
    try (intros H; inversion H; unfold arithmetic; now auto).
  - destruct (y =? 0); [intros H; inversion H; unfold arithmetic; now auto|].
    destruct (SFdiv prec emax (exact_float x) (exact_float y));
      intros H; inversion H; unfold arithmetic; now auto.
  - destruct (float_of_int x) eqn:E; cbn [res_bind].
    + apply float_div_exn.
    + intros H; inversion H; subst. now apply float_of_int_exn in E.
  - destruct (float_of_int y) eqn:E; cbn [res_bind].
    + apply float_div_exn.
    + intros H; inversion H; subst. now apply float_of_int_exn in E.
  - apply float_div_exn.
Qed.

Lemma py_sub_exn (a b : pyval) (e : exn) :
  py_sub a b = Raise e -> arithmetic e.
Proof.
  destruct a as [|x|x|x], b as [|y|y|y]; cbn [py_sub];
    try (intros H; inversion H; unfold arithmetic; now auto).
  - destruct (float_of_int x) eqn:E; cbn [res_bind]; intros H; inversion H; subst.
    now apply float_of_int_exn in E.
  - destruct (float_of_int y) eqn:E; cbn [res_bind]; intros H; inversion H; subst.
    now apply float_of_int_exn in E.
Qed.

Lemma scale_value_exn (self : ScaledField) (v : pyval) (e : exn) :
  scale_value self v = Raise e -> arithmetic e.
Proof.
  unfold scale_value.
  destruct (py_truediv v (_scale self)) eqn:E; cbn [res_bind].
  - apply py_sub_exn.
  - intros H; inversion H; subst. now apply py_truediv_exn in E.
Qed.

Lemma map_res_exn {X Y} (f : X -> Res Y) (P : exn -> Prop) :
  (forall x e, f x = Raise e -> P e) ->
  forall xs e, map_res f xs = Raise e -> P e.
Proof.
  intros Hf xs. induction xs as [|x xs IH]; intros e; cbn [map_res].
  - discriminate.
  - destruct (f x) eqn:E; cbn [res_bind].
    + destruct (map_res f xs); cbn [res_bind]; [discriminate|].
      intros H; inversion H; subst. now apply IH.
    + intros H; inversion H; subst. now apply Hf in E.
Qed.

Lemma bind_bind_ok {X Y Z} (m : M A X) (k : X -> M A Y) (h : Y -> M A Z) w w' x :
  m w = (w', Ok x) -> bind (bind m k) h w = bind (k x) h w'.
Proof. intros H. unfold bind at 1. now rewrite (bind_ok m k w w' x H). Qed.

Lemma bind_bind_raise {X Y Z} (m : M A X) (k : X -> M A Y) (h : Y -> M A Z)
  w w' e :
  m w = (w', Raise e) -> bind (bind m k) h w = (w', Raise e).
Proof. intros H. unfold bind at 1. now rewrite (bind_raise m k w w' e H). Qed.

(** [_parse_and_scale] raises nothing but the exceptions of its arithmetic. *)
Lemma parse_and_scale_exn (self : ScaledField) (type : FitType) data count endian
  (accumulate : Accumulate A) (w : World A) (e : exn) :
  snd (_parse_and_scale self type data count endian accumulate w) = Raise e ->
  arithmetic e.
Proof.
  unfold _parse_and_scale.
  destruct (type_parse type data count endian) as [raw|]; [|discriminate].
  assert (Hacc : forall values w1,
             snd (bind (bind (if truthy (_is_accumulate self)
                              then call_accumulate accumulate self values
                              else ret values)
                             (fun values => ret (Some values)))
                       (fun values => yield (name self, (values, _units self))) w1)
             <> Raise e).
  { intros values w1. unfold bind, call_accumulate, ret, yield.
    destruct (truthy (_is_accumulate self)).
    - destruct (accumulate self values (acc w1)); cbn; discriminate.
    - cbn; discriminate. }
  destruct (_is_scaled self).
  - destruct (stub_print_yielded
                (existsb isinstance_str raw || isinstance_str (_scale self)) w)
      as (w1 & Hprint & _).
    destruct (map_res (scale_value self) raw) as [values|e'] eqn:E.
    + erewrite bind_bind_ok.
      2:{ erewrite bind_ok; [|exact Hprint]. reflexivity. }
      intros H. exfalso. exact (Hacc values w1 H).
    + erewrite bind_bind_raise.
      2:{ erewrite bind_ok; [|exact Hprint]. reflexivity. }
      cbn [snd]. intros H; inversion H; subst.
      now apply (map_res_exn _ _ (scale_value_exn self)) in E.
  - intros H. exfalso. exact (Hacc raw w H).
Qed.

(** C6 (amended): [DelegateField.parse] looks its name up in the message;
    when the field found is an instance of [RowField] -- a plain
    [RowField] or a [DynamicField], its subclass -- it decodes with that
    field's type and its own scale and offset; when it is not and the
    delegate is scaled it raises the configuration error; when it is not
    and the delegate is not scaled it forwards the call unchanged. The
    configuration error comes out only in the second case, or out of the
    forwarded call. *)
Theorem DelegateField_parse_cases :
  forall (s : ScaledField) (delegate : Field) (message : Message),
    message (name s) = Some delegate ->
    forall fuel data count endian refs (accumulate : Accumulate A) (w : World A),
      let configuration_error := Exception "Scaled component is not a simple field" in
      let result :=
        parse (S fuel) (FDelegate s) data count endian refs accumulate message w in
      let forwarded :=
        parse fuel delegate data count endian refs accumulate message w in
      (isinstance_RowField delegate = true ->
       exists type, Field_type delegate = Ok type
                    /\ result = _parse_and_scale s type data count endian accumulate w)
      /\ (isinstance_RowField delegate = false -> _is_scaled s = true ->
          result = (w, Raise configuration_error))
      /\ (isinstance_RowField delegate = false -> _is_scaled s = false ->
          result = forwarded)
      /\ (snd result = Raise configuration_error ->
          isinstance_RowField delegate = false
          /\ (_is_scaled s = true \/ snd forwarded = Raise configuration_error)).
Proof.
  intros s delegate message Hfound fuel data count endian refs accumulate w
         configuration_error result forwarded.
  assert (Hresult : result
                    = if isinstance_RowField delegate then
                        (type <- lift (Field_type delegate) ;;
                         _parse_and_scale s type data count endian accumulate) w
                      else if _is_scaled s then (w, Raise configuration_error)
                      else forwarded).
  { unfold result. cbn [parse]. unfold profile_to_field. rewrite Hfound.
    unfold bind at 1, ret at 1.
    destruct (isinstance_RowField delegate); [reflexivity|].
    destruct (_is_scaled s); reflexivity. }
  rewrite Hresult. clear Hresult.
  split.
  { intros Hrow. rewrite Hrow.
    destruct delegate as [t|t|s'|c|d]; try discriminate; eexists; split; reflexivity. }
  split; [intros -> ->; reflexivity|].
  split; [intros -> ->; reflexivity|].
  destruct (isinstance_RowField delegate) eqn:Hrow.
  - intros H. exfalso.
    assert (Harith : arithmetic configuration_error).
    { destruct delegate as [t|t|s'|c|d]; try discriminate;
        apply parse_and_scale_exn in H; exact H. }
    destruct Harith as [Hx|[Hx|Hx]]; discriminate.
  - destruct (_is_scaled s); intros H; split; auto.
Qed.

Lemma composite_loop_cons (parse_field : ScaledField -> list byte -> M A unit)
  (message : Message) (order : byteorder) (bits nbits : Z) (field : ScaledField)
  (rest : list (Z * ScaledField)) (w : World A) :
  composite_loop parse_field message order bits ((nbits, field) :: rest) w
  = match DelegateField_size field message with
    | Raise e => (w, Raise e)
    | Ok size =>
        match mask_of bits with
        | Raise e => (w, Raise e)
        | Ok mask =>
            match to_bytes (Z.land bits mask)
                           (Z.max ((nbits + 7) / 8) size) order with
            | Raise e => (w, Raise e)
            | Ok data =>
                if nbits <? 0 then (w, Raise ValueError)
                else match parse_field field data w with
                     | (w1, Ok _) =>
                         composite_loop parse_field message order
                                        (Z.shiftr bits nbits) rest w1
                     | (w1, Raise e) => (w1, Raise e)
                     end
            end
        end
    end.
Proof.
  cbn [composite_loop]. unfold bind, lift, py_rshift.
  destruct (DelegateField_size field message); [|reflexivity].
  destruct (mask_of bits); [|reflexivity].
  destruct (to_bytes _ _ order); [|reflexivity].
  destruct (nbits <? 0); reflexivity.
Qed.

(** What the mask is when the interpreter can build it, and that it can
    for the small counts. *)
Lemma mask_of_ok (n mask : Z) :
  mask_of n = Ok mask -> 0 <= n /\ mask = Z.shiftl 1 n - 1.
Proof.
  unfold mask_of. destruct (n <? 0) eqn:Hn; [discriminate|].
  apply Z.ltb_ge in Hn.
  destruct (n <? small_shift); [intros [= <-]; auto|].
  destruct (shortage_at n); [discriminate|intros [= <-]; auto].
Qed.

Lemma mask_of_small (n : Z) :
  0 <= n < small_shift -> mask_of n = Ok (Z.shiftl 1 n - 1).
Proof.
  intros [H0 H1]. unfold mask_of.
  apply Z.ltb_ge in H0. apply Z.ltb_lt in H1. now rewrite H0, H1.
Qed.

Lemma mask_of_raises (n : Z) (e : exn) :
  0 <= n -> mask_of n = Raise e ->
  small_shift <= n /\ exists s, shortage_at n = Some s /\ e = shortage_exn s.
Proof.
  intros H0. unfold mask_of. apply Z.ltb_ge in H0. rewrite H0.
  destruct (n <? small_shift) eqn:Hs; [discriminate|]. apply Z.ltb_ge in Hs.
  destruct (shortage_at n) as [s|]; [|discriminate].
  intros [= <-]. split; [exact Hs|]. exists s. auto.
Qed.

Lemma composite_loop_app (parse_field : ScaledField -> list byte -> M A unit)
  (message : Message) (order : byteorder) (after : list (Z * ScaledField)) :
  forall before bits w,
    match composite_loop parse_field message order bits before w with
    | (w', Ok _) =>
        0 <= total_bits before
        /\ composite_loop parse_field message order bits (before ++ after) w
           = composite_loop parse_field message order
               (Z.shiftr bits (total_bits before)) after w'
    | (w', Raise e) =>
        composite_loop parse_field message order bits (before ++ after) w
        = (w', Raise e)
    end.
Proof.
  induction before as [|[nbits field] before IH]; intros bits w.
  - cbn. split; [lia|reflexivity].
  - cbn [app]. rewrite !composite_loop_cons.
    cbn [total_bits fold_right fst]. fold (total_bits before).
    destruct (DelegateField_size field message) as [size|e]; [|reflexivity].
    destruct (mask_of bits) as [mask|e]; [|reflexivity].
    destruct (to_bytes _ _ order) as [data|e]; [|reflexivity].
    destruct (nbits <? 0) eqn:Hn; [reflexivity|].
    apply Z.ltb_ge in Hn.
    destruct (parse_field field data w) as [w1 [[]|e]]; [|reflexivity].
    specialize (IH (Z.shiftr bits nbits) w1).
    destruct (composite_loop parse_field message order (Z.shiftr bits nbits)
                             before w1) as [w2 [[]|e]]; [|exact IH].
    destruct IH as [Hpos IH]. split; [lia|].
    rewrite IH, Z.shiftr_shiftr by lia. reflexivity.
Qed.

Lemma byte_val_range (b : byte) : 0 <= byte_val b < 256.
Proof. destruct b; cbv; split; congruence. Qed.

Lemma le_value_range (data : list byte) :
  0 <= le_value data < 2 ^ (8 * Z.of_nat (List.length data)).
Proof.
  induction data as [|b data IH].
  - cbn. lia.
  - cbn [le_value List.length]. pose proof (byte_val_range b).
    rewrite Nat2Z.inj_succ.
    replace (8 * Z.succ (Z.of_nat (List.length data)))
      with (8 + 8 * Z.of_nat (List.length data)) by lia.
    rewrite Z.pow_add_r by lia. change (2 ^ 8) with 256. nia.
Qed.

Lemma from_bytes_range (data : list byte) (order : byteorder) :
  0 <= from_bytes data order < 2 ^ (8 * Z.of_nat (List.length data)).
Proof.
  destruct order; cbn [from_bytes]; [apply le_value_range|].
  rewrite <- length_rev. apply le_value_range.
Qed.

(** The mask of [CompositeField.parse] keeps every bit of the running
    integer: it is built from [bits], not from the component's width. *)
Lemma mask_keeps_all_bits (bits : Z) :
  0 <= bits -> Z.land bits (Z.shiftl 1 bits - 1) = bits.
Proof.
  intros Hbits. rewrite Z.shiftl_1_l.
  replace (2 ^ bits - 1) with (Z.ones bits) by (rewrite Z.ones_equiv; lia).
  rewrite Z.land_ones by lia.
  apply Z.mod_small. split; [lia|]. apply Z.pow_gt_lin_r; lia.
Qed.

Lemma parse_composite (fuel : nat) (c : CompositeField) data count endian refs
  (accumulate : Accumulate A) message (w : World A) :
  parse (S fuel) (FComposite c) data count endian refs accumulate message w
  = match byteorder_of endian with
    | Raise e => (w, Raise e)
    | Ok order =>
        composite_loop
          (fun field data =>
             parse fuel (FDelegate field) data 1 endian refs accumulate message)
          message order (from_bytes data order) (__components c) w
    end.
Proof.
  cbn [parse]. unfold bind, lift. destruct (byteorder_of endian); reflexivity.
Qed.

(** Hence every component is handed the whole running integer, re-encoded
    on [nbytes] bytes. *)
Lemma composite_loop_unmasked (parse_field : ScaledField -> list byte -> M A unit)
  (message : Message) (order : byteorder) (bits nbits : Z) (field : ScaledField)
  (rest : list (Z * ScaledField)) (w : World A) :
  composite_loop parse_field message order bits ((nbits, field) :: rest) w
  = (size <- lift (DelegateField_size field message) ;;
     _ <- lift (mask_of bits) ;;
     data <- lift (to_bytes bits (Z.max ((nbits + 7) / 8) size) order) ;;
     bits <- lift (py_rshift bits nbits) ;;
     parse_field field data ;;;
     composite_loop parse_field message order bits rest) w.
Proof.
  cbn [composite_loop]. unfold bind, lift.
  destruct (DelegateField_size field message) as [size|e]; [|reflexivity].
  destruct (mask_of bits) as [mask|e] eqn:Hshift; [|reflexivity].
  apply mask_of_ok in Hshift. destruct Hshift as [Hbits ->].
  now rewrite mask_keeps_all_bits.
Qed.

(** C7 (amended): [CompositeField.parse] does not compare the declared
    widths with the length of the buffer and raises no error when they
    exceed it: once the components decoded so far cover every bit of the
    buffer, the components that follow are decoded exactly as they are
    from an empty buffer, that is from zero bits. *)
Theorem CompositeField_parse_past_end :
  forall (n no : pyval) (before after : list (Z * ScaledField)) (data : list byte),
    8 * Z.of_nat (List.length data) <= total_bits before ->
    forall fuel count endian refs (accumulate : Accumulate A) message (w : World A),
      let composite components :=
        FComposite {| c_name := n; c_number := no; __components := components |} in
      match parse (S fuel) (composite before) data count endian refs accumulate
                  message w with
      | (w', Ok _) =>
          parse (S fuel) (composite (before ++ after)%list) data count endian refs
                accumulate message w
          = parse (S fuel) (composite after) [] count endian refs accumulate
                  message w'
      | (w', Raise e) =>
          parse (S fuel) (composite (before ++ after)%list) data count endian refs
                accumulate message w
          = (w', Raise e)
      end.
Proof.
  intros n no before after data Hbits fuel count endian refs accumulate message w
         composite.
  subst composite. cbv beta. rewrite !parse_composite. cbn [__components].
  destruct (byteorder_of endian) as [order|e] eqn:Horder; [|reflexivity].
  set (parse_field := fun field data0 =>
         parse fuel (FDelegate field) data0 1 endian refs accumulate message).
  pose proof (composite_loop_app parse_field message order after before
                                 (from_bytes data order) w) as H.
  destruct (composite_loop parse_field message order (from_bytes data order)
                           before w) as [w' [[]|e]]; [|exact H].
  destruct H as [Hpos H]. rewrite H, parse_composite, Horder.
  cbn [__components]. fold parse_field. f_equal.
  pose proof (from_bytes_range data order) as Hrange.
  rewrite Z.shiftr_div_pow2 by lia.
  replace (from_bytes [] order) with 0 by (destruct order; reflexivity).
  apply Z.div_small. split; [lia|].
  apply Z.lt_le_trans with (1 := proj2 Hrange).
  apply Z.pow_le_mono_r; lia.
Qed.

(** ** Further properties *)

(** *** [ScaledField._parse_and_scale] *)

(** The run of [_parse_and_scale], case by case. *)
Lemma parse_and_scale_run (self : ScaledField) (type : FitType) data count endian
  (accumulate : Accumulate A) (w : World A) :
  _parse_and_scale self type data count endian accumulate w
  = match type_parse type data count endian with
    | None => (emitted w (name self, (None, _units self)), Ok tt)
    | Some raw =>
        let w1 := if _is_scaled self
                     && (existsb isinstance_str raw || isinstance_str (_scale self))
                  then printed w "x" else w in
        match (if _is_scaled self then map_res (scale_value self) raw
               else Ok raw) with
        | Raise e => (w1, Raise e)
        | Ok values =>
            if truthy (_is_accumulate self) then
              let (a, vs) := accumulate self values (acc w1) in
              (emitted (with_acc w1 a) (name self, (Some vs, _units self)), Ok tt)
            else (emitted w1 (name self, (Some values, _units self)), Ok tt)
        end
    end.
Proof.
  unfold _parse_and_scale.
  destruct (type_parse type data count endian) as [raw|]; [|reflexivity].
  destruct (_is_scaled self); cbn [andb].
  - destruct (existsb isinstance_str raw || isinstance_str (_scale self));
      unfold bind, print, ret, lift, call_accumulate, yield;
      (destruct (map_res (scale_value self) raw) as [values|e]; [|reflexivity]);
      (destruct (truthy (_is_accumulate self)); [|reflexivity]);
      cbn [acc printed];
      destruct (accumulate self values (acc w)); reflexivity.
  - unfold bind, ret, call_accumulate, yield.
    destruct (truthy (_is_accumulate self)); [|reflexivity].
    destruct (accumulate self raw (acc w)); reflexivity.
Qed.

Lemma parse_and_scale_outcome :
  forall (self : ScaledField) (type : FitType) data count endian
         (accumulate : Accumulate A) (w : World A),
    let result := _parse_and_scale self type data count endian accumulate w in
    warnings (fst result) = warnings w
    /\ match snd result with
       | Ok _ =>
           exists values,
             yielded (fst result)
             = (yielded w ++ [(name self, (values, _units self))])%list
       | Raise e =>
           yielded (fst result) = yielded w
           /\ acc (fst result) = acc w
           /\ arithmetic e
       end.
Proof.
  intros self type data count endian accumulate w result.
  unfold result. rewrite parse_and_scale_run.
  destruct (type_parse type data count endian) as [raw|];
    [|split; [reflexivity|eexists; reflexivity]].
  cbv zeta.
  assert (Hrun : forall w1,
             warnings w1 = warnings w -> yielded w1 = yielded w ->
             acc w1 = acc w ->
             let r := match (if _is_scaled self then map_res (scale_value self) raw
                             else Ok raw) with
                      | Raise e => (w1, Raise e)
                      | Ok values =>
                          if truthy (_is_accumulate self) then
                            let (a, vs) := accumulate self values (acc w1) in
                            (emitted (with_acc w1 a)
                                     (name self, (Some vs, _units self)), Ok tt)
                          else (emitted w1 (name self, (Some values, _units self)),
                                Ok tt)
                      end in
             warnings (fst r) = warnings w
             /\ match snd r with
                | Ok _ =>
                    exists values,
                      yielded (fst r)
                      = (yielded w ++ [(name self, (values, _units self))])%list
                | Raise e =>
                    yielded (fst r) = yielded w /\ acc (fst r) = acc w
                    /\ arithmetic e
                end).
  { intros w1 Hwarn Hy Ha.
    destruct (if _is_scaled self then map_res (scale_value self) raw else Ok raw)
      as [values|e] eqn:E.
    - destruct (truthy (_is_accumulate self)).
      + destruct (accumulate self values (acc w1)) as [a vs]. cbn.
        split; [exact Hwarn|]. rewrite Hy. eexists; reflexivity.
      + cbn. split; [exact Hwarn|]. rewrite Hy. eexists; reflexivity.
    - cbn. repeat split; auto.
      destruct (_is_scaled self); [|discriminate].
      now apply (map_res_exn _ _ (scale_value_exn self)) in E. }
  destruct (_is_scaled self
            && (existsb isinstance_str raw || isinstance_str (_scale self)));
    apply Hrun; reflexivity.
Qed.

(** X1: whenever [_parse_and_scale] returns it has yielded exactly one
    entry, under the field's own name and with the field's own units; when
    it raises it has yielded nothing, the accumulator has not been called
    and the exception is one of the arithmetic, [TypeError],
    [ZeroDivisionError] or [OverflowError]; it never logs. *)
Theorem parse_and_scale_one_entry :
  forall (self : ScaledField) (type : FitType) data count endian
         (accumulate : Accumulate A) (w : World A),
    let result := _parse_and_scale self type data count endian accumulate w in
    warnings (fst result) = warnings w
    /\ match snd result with
       | Ok _ =>
           exists values,
             yielded (fst result)
             = (yielded w ++ [(name self, (values, _units self))])%list
       | Raise e =>
           yielded (fst result) = yielded w
           /\ acc (fst result) = acc w
           /\ arithmetic e
       end.
Proof. exact parse_and_scale_outcome. Qed.

Lemma map_res_raises {X Y} (f : X -> Res Y) (x : X) (xs : list X) :
  In x xs -> (exists e, f x = Raise e) -> exists e, map_res f xs = Raise e.
Proof.
  induction xs as [|y xs IH]; intros Hin Hx; [contradiction|].
  cbn [map_res]. destruct Hin as [->|Hin].
  - destruct Hx as [e ->]. now exists e.
  - destruct (f y); cbn [res_bind]; [|eexists; reflexivity].
    destruct (IH Hin Hx) as [e ->]. now exists e.
Qed.

(** X2: a scaled field whose decoded values hold a string prints the
    line [x], raises an exception of the arithmetic and yields nothing;
    the exception is [TypeError] when the string comes first. *)
Theorem parse_and_scale_string_value :
  forall (self : ScaledField) (type : FitType) data count endian
         (accumulate : Accumulate A) (w : World A) (raw : list pyval),
    _is_scaled self = true ->
    type_parse type data count endian = Some raw ->
    existsb isinstance_str raw = true ->
    exists e,
      _parse_and_scale self type data count endian accumulate w
      = (printed w "x", Raise e)
      /\ arithmetic e
      /\ (forall s rest, raw = PStr s :: rest -> e = TypeError).
Proof.
  intros self type data count endian accumulate w raw Hs Hraw Hstr.
  rewrite parse_and_scale_run, Hraw, Hs, Hstr. cbn [andb orb].
  apply existsb_exists in Hstr. destruct Hstr as (v & Hin & Hv).
  destruct (map_res_raises (scale_value self) v raw Hin) as [e He].
  { destruct v; try discriminate. eexists; reflexivity. }
  exists e. rewrite He. split; [reflexivity|]. split.
  - now apply (map_res_exn _ _ (scale_value_exn self)) in He.
  - intros s rest ->. cbn in He. congruence.
Qed.

(** X3: a field whose scale is the integer 0 counts as scaled, and on a
    decoded tuple that starts with a number it raises
    [ZeroDivisionError] and yields nothing. *)
Theorem parse_and_scale_zero_scale :
  forall (n units offset flag : pyval) (type : FitType) data count endian
         (accumulate : Accumulate A) (w : World A) (v : pyval) (rest : list pyval),
    let self := ScaledField_init n units (PInt 0) offset flag in
    let result := _parse_and_scale self type data count endian accumulate w in
    type_parse type data count endian = Some (v :: rest) ->
    is_number v = true ->
    _is_scaled self = true
    /\ snd result = Raise ZeroDivisionError
    /\ yielded (fst result) = yielded w.
Proof.
  intros n units0 offset0 flag type data count endian accumulate w v rest
         self result Hraw Hv.
  assert (Hs : _is_scaled self = true) by reflexivity.
  split; [exact Hs|].
  unfold result. rewrite parse_and_scale_run, Hraw, Hs.
  assert (Hdiv : scale_value self v = Raise ZeroDivisionError).
  { unfold scale_value. destruct v as [|x|f|s]; try discriminate; reflexivity. }
  cbn [map_res]. rewrite Hdiv. cbn [res_bind snd fst].
  split; [reflexivity|].
  destruct (_ && _); reflexivity.
Qed.

(** *** [RowField.__init__] *)

Lemma single_int_result (value : pyval) (w w' : World A) (x : pyval) :
  single_int value w = (w', Ok x) ->
  none_or_int x /\ yielded w' = yielded w /\ stdout w' = stdout w
  /\ acc w' = acc w.
Proof.
  unfold single_int, none_or_int.
  destruct (is_None value).
  - intros H; inversion H; subst. repeat split; auto.
  - destruct (py_int value) as [z|e].
    + intros H; inversion H; subst. repeat split; eauto.
    + destruct e; try discriminate.
      intros H; inversion H; subst. repeat split; auto.
Qed.

Lemma single_int_not_float (value : pyval) (w : World A) :
  not_float value = true ->
  exists w' x, single_int value w = (w', Ok x).
Proof.
  destruct value as [|z|f|s]; try discriminate; intros _.
  - now exists w, PNone.
  - now exists w, (PInt z).
  - unfold single_int. cbn. destruct (int_of_str s); eexists _, _; reflexivity.
Qed.

(** What [ScaledField.__init__] makes of a scale or an offset that is
    [None] or an [int]. *)
Lemma default_int (v : pyval) (d : Z) :
  none_or_int v -> exists z, (if is_None v then PInt d else v) = PInt z.
Proof. intros [->|[z ->]]; eexists; reflexivity. Qed.

Lemma RowField_init_shape :
  forall (row : Row) (types : Types) (w w' : World A) (r : TypedField),
    RowField_init row types w = (w', Ok r) ->
    name (scaled r) = field_name row
    /\ _units (scaled r) = units row
    /\ types (field_type row) = Some (type_ r)
    /\ (exists z, _scale (scaled r) = PInt z)
    /\ (exists z, _offset (scaled r) = PInt z)
    /\ none_or_int (number r)
    /\ none_or_int (_is_accumulate (scaled r))
    /\ yielded w' = yielded w.
Proof.
  intros row types w w' r. unfold RowField_init, bind.
  destruct (single_int (field_no row) w) as [w1 [no|e]] eqn:E1; [|discriminate].
  destruct (single_int (scale row) w1) as [w2 [sc|e]] eqn:E2; [|discriminate].
  destruct (single_int (offset row) w2) as [w3 [off|e]] eqn:E3; [|discriminate].
  destruct (single_int (accumulate row) w3) as [w4 [ac|e]] eqn:E4; [|discriminate].
  apply single_int_result in E1, E2, E3, E4.
  destruct E1 as (Hno & Y1 & _), E2 as (Hsc & Y2 & _), E3 as (Hoff & Y3 & _),
           E4 as (Hac & Y4 & _).
  unfold TypedField_init.
  destruct (types (field_type row)) as [type|]; [|discriminate].
  unfold ret. intros H; inversion H; subst. cbn.
  repeat split; auto.
  - now apply default_int.
  - now apply default_int.
  - congruence.
Qed.

(** X4: a [RowField] that [RowField.__init__] builds carries the row's
    field name and units and the registry's type for the row's type tag;
    its scale and its offset are integers, its number and its accumulate
    flag are [None] or integers, whatever the cells of the row hold; the
    constructor yields nothing. *)
Theorem RowField_init_fields :
  forall (row : Row) (types : Types) (w w' : World A) (r : TypedField),
    RowField_init row types w = (w', Ok r) ->
    name (scaled r) = field_name row
    /\ _units (scaled r) = units row
    /\ types (field_type row) = Some (type_ r)
    /\ (exists z, _scale (scaled r) = PInt z)
    /\ (exists z, _offset (scaled r) = PInt z)
    /\ none_or_int (number r)
    /\ none_or_int (_is_accumulate (scaled r))
    /\ yielded w' = yielded w.
Proof. exact RowField_init_shape. Qed.

(** X5: when the type tag is known to the registry and none of the four
    numeric cells of the row is a float, [RowField.__init__] raises
    nothing, however malformed the cells are: it returns a field of the
    registry's type. *)
Theorem RowField_init_total :
  forall (row : Row) (types : Types) (type : FitType) (w : World A),
    types (field_type row) = Some type ->
    not_float (field_no row) = true ->
    not_float (scale row) = true ->
    not_float (offset row) = true ->
    not_float (accumulate row) = true ->
    exists w' r, RowField_init row types w = (w', Ok r) /\ type_ r = type.
Proof.
  intros row types type w Htype H1 H2 H3 H4. unfold RowField_init, bind.
  destruct (single_int_not_float _ w H1) as (w1 & no & ->).
  destruct (single_int_not_float _ w1 H2) as (w2 & sc & ->).
  destruct (single_int_not_float _ w2 H3) as (w3 & off & ->).
  destruct (single_int_not_float _ w3 H4) as (w4 & ac & ->).
  unfold TypedField_init. rewrite Htype. eexists _, _. split; reflexivity.
Qed.

(** *** [Zip] *)

Lemma nexts_length (gs : list Gen) :
  forall xs gs', nexts gs = Some (xs, gs') ->
                 List.length xs = List.length gs
                 /\ List.length gs' = List.length gs.
Proof.
  induction gs as [|g gs IH]; intros xs gs'; cbn [nexts].
  - intros H; inversion H; now split.
  - destruct (gen_next g) as [[x g']|]; [|discriminate].
    destruct (nexts gs) as [[ys r]|]; [|discriminate].
    intros H; inversion H; subst. destruct (IH ys r eq_refl) as [H1 H2].
    cbn [List.length]. now rewrite H1, H2.
Qed.

Lemma zip_gens_arity (first : list pyval) :
  forall rest,
    Forall (fun t => List.length t = S (List.length rest)) (zip_gens first rest).
Proof.
  induction first as [|x first IH]; intros rest; cbn [zip_gens]; [constructor|].
  destruct (nexts rest) as [[xs rest']|] eqn:E; [|constructor].
  destruct (nexts_length rest xs rest' E) as [H1 H2].
  constructor.
  - cbn [List.length]. now rewrite H1.
  - rewrite <- H2. apply IH.
Qed.

Lemma splits_length (fields : list pyval) :
  forall n, List.length (splits n fields) = List.length fields.
Proof.
  induction fields as [|f fields IH]; intros n; [reflexivity|].
  cbn [splits List.length]. now rewrite IH.
Qed.

(** X6: every tuple that [_zip] yields has one item per field passed to
    it, so that unpacking a tuple into as many names as there are fields
    never fails. *)
Theorem zip_arity :
  forall fields : list pyval,
    Forall (fun t => List.length t = List.length fields) (_zip fields).
Proof.
  intros fields. unfold _zip.
  pose proof (splits_length fields 0) as Hlen.
  destruct (splits 0 fields) as [|[first e] rest]; [constructor|].
  cbn [List.length] in Hlen. rewrite <- Hlen. apply zip_gens_arity.
Qed.

Lemma rstrip_idempotent (s : string) : rstrip (rstrip s) = rstrip s.
Proof.
  induction s as [|c r IH]; [reflexivity|].
  cbn [rstrip]. destruct (rstrip r) as [|c' r'] eqn:E.
  - destruct (is_space c) eqn:Hc; [reflexivity|].
    cbn [rstrip]. now rewrite Hc.
  - change (rstrip (String c (String c' r')))
      with (match rstrip (String c' r') with
            | EmptyString => if is_space c then EmptyString
                             else String c EmptyString
            | r'' => String c r''
            end).
    now rewrite IH.
Qed.

Lemma lstrip_rstrip_lstrip (s : string) :
  lstrip (rstrip (lstrip s)) = rstrip (lstrip s).
Proof.
  induction s as [|c r IH]; [reflexivity|].
  cbn [lstrip]. destruct (is_space c) eqn:Hc; [exact IH|].
  cbn [rstrip]. destruct (rstrip r); rewrite ?Hc; cbn [lstrip]; now rewrite Hc.
Qed.

(** [strip] leaves nothing for a second [strip] to remove. *)
Lemma strip_idempotent (s : string) : strip (strip s) = strip s.
Proof.
  unfold strip. now rewrite lstrip_rstrip_lstrip, rstrip_idempotent.
Qed.

Lemma str_split_length (c : ascii) (s : string) :
  List.length (str_split c s) = S (count_char c s).
Proof.
  induction s as [|c' r IH]; [reflexivity|].
  cbn [str_split count_char]. destruct (Ascii.eqb c' c).
  - cbn [List.length]. now rewrite IH.
  - destruct (str_split c r); [discriminate|exact IH].
Qed.

Lemma split_values_shape :
  forall field : pyval,
    if truthy field then
      List.length (split_values field) = S (count_char "," (py_str field))
      /\ Forall (fun v => exists s, v = PStr s /\ strip s = s) (split_values field)
    else split_values field = [PNone].
Proof.
  intros field. unfold split_values, __split. cbn [fst].
  destruct (truthy field); [|reflexivity].
  split.
  - now rewrite length_map, str_split_length.
  - apply Forall_forall. intros v Hv. apply in_map_iff in Hv.
    destruct Hv as (s & <- & _). exists (strip s).
    split; [reflexivity|apply strip_idempotent].
Qed.

(** X7: for a field that is empty or [None], [__split] yields the single
    value [None]; otherwise it yields one string per comma of [str(field)]
    and one more, each without whitespace at either end. *)
Theorem split_values_stripped :
  forall field : pyval,
    if truthy field then
      List.length (split_values field) = S (count_char "," (py_str field))
      /\ Forall (fun v => exists s, v = PStr s /\ strip s = s) (split_values field)
    else split_values field = [PNone].
Proof. exact split_values_shape. Qed.

Lemma split_values_are_split_values (field : pyval) :
  Forall split_value (split_values field).
Proof.
  pose proof (split_values_shape field) as H.
  destruct (truthy field).
  - destruct H as [_ H]. eapply Forall_impl; [|exact H].
    intros v Hv. now right.
  - rewrite H. constructor; [now left|constructor].
Qed.

Lemma split_values_nonempty (field : pyval) :
  (1 <= List.length (split_values field))%nat.
Proof.
  pose proof (split_values_shape field) as H.
  destruct (truthy field).
  - destruct H as [-> _]. lia.
  - rewrite H. cbn. lia.
Qed.

(** *** [CompositeField.__init__] *)

(** The tuples of [_zip] for two fields or more. *)
Lemma zip_tuples (first second : pyval) (others : list pyval) :
  _zip (first :: second :: others)
  = map (lockstep (split_values first) (split_values second)
                  (map split_values others))
        (seq 0 (Nat.min (List.length (split_values first))
                        (List.length (split_values second)))).
Proof.
  unfold _zip. cbn [splits]. rewrite (splits_extended others (0 + 1 + 1)) by lia.
  change (__split first (1 <? 0)) with (split_values first, false).
  change (__split second (1 <? 0 + 1)) with (split_values second, false).
  rewrite <- (map_map split_values (fun l => (l, true))).
  apply zip_gens_lockstep.
Qed.

Lemma map_res_Forall2 {X Y} (f : X -> Res Y) (xs : list X) :
  forall ys, map_res f xs = Ok ys -> Forall2 (fun x y => f x = Ok y) xs ys.
Proof.
  induction xs as [|x xs IH]; intros ys; cbn [map_res].
  - intros H; inversion H. constructor.
  - destruct (f x) as [y|e] eqn:E; cbn [res_bind]; [|discriminate].
    destruct (map_res f xs) as [ys'|e]; cbn [res_bind]; [|discriminate].
    intros H; inversion H; subst. constructor; auto.
Qed.

Lemma map_nth_firstn (l : list pyval) :
  forall n k, (n + k <= List.length l)%nat ->
    map (fun i => nth i l PNone) (seq k n) = firstn n (skipn k l).
Proof.
  intros n. induction n as [|n IH]; intros k Hk; [reflexivity|].
  cbn [seq map]. rewrite IH by lia.
  assert (Hlt : (k < List.length l)%nat) by lia.
  clear IH Hk. revert k Hlt.
  induction l as [|x l IHl]; intros k Hlt; [cbn in Hlt; lia|].
  destruct k as [|k]; [reflexivity|].
  cbn [nth skipn]. cbn [List.length] in Hlt. apply IHl. lia.
Qed.

Lemma component_of_tuple (names widths : list pyval) (others : list (list pyval))
  (i : nat) (p : Z * ScaledField) :
  List.length others = 4%nat ->
  component (lockstep names widths others i) = Ok p ->
  name (snd p) = nth i names PNone
  /\ py_int (nth i widths PNone) = Ok (fst p)
  /\ numeric_scaling (snd p).
Proof.
  intros Hlen.
  destruct others as [|u [|s [|o [|a [|]]]]]; try discriminate.
  unfold lockstep. cbn [map]. unfold component.
  destruct (py_int (nth i widths PNone)) as [nbits|e]; cbn [res_bind];
    [|discriminate].
  unfold optional_float.
  destruct (nth i s PNone) as [|z|f|str] eqn:Es; cbn [is_None];
    (try destruct (py_float _) as [sc|e]); cbn [res_bind]; try discriminate;
    (destruct (nth i o PNone) as [|z'|f'|str'] eqn:Eo; cbn [is_None];
     (try destruct (py_float _) as [off|e']); cbn [res_bind]; try discriminate;
     intros H; inversion H; subst; cbn; repeat split; reflexivity).
Qed.

Lemma components_of_tuples (names widths : list pyval)
  (others : list (list pyval)) :
  List.length others = 4%nat ->
  forall idx comps,
    Forall2 (fun t p => component t = Ok p)
            (map (lockstep names widths others) idx) comps ->
    map (fun p => name (snd p)) comps = map (fun i => nth i names PNone) idx
    /\ Forall2 (fun width p => py_int width = Ok (fst p))
               (map (fun i => nth i widths PNone) idx) comps
    /\ Forall (fun p => numeric_scaling (snd p)) comps.
Proof.
  intros Hlen idx. induction idx as [|i idx IH]; intros comps H.
  - inversion H; subst. repeat split; constructor.
  - cbn [map] in H. inversion H as [|t p ts ps Hp Hps]; subst.
    destruct (IH ps Hps) as (H1 & H2 & H3).
    destruct (component_of_tuple names widths others i p Hlen Hp)
      as (Hn & Hw & Hnum).
    cbn [map]. rewrite Hn, H1. repeat split; constructor; auto.
Qed.

Lemma CompositeField_init_shape :
  forall (row : Row) (w w' : World A) (c : CompositeField),
    CompositeField_init row w = (w', Ok c) ->
    let names := split_values (components row) in
    let widths := split_values (bits row) in
    let n := Nat.min (List.length names) (List.length widths) in
    c_name c = field_name row
    /\ List.length (__components c) = n
    /\ map (fun p => name (snd p)) (__components c) = firstn n names
    /\ Forall2 (fun width p => py_int width = Ok (fst p))
               (firstn n widths) (__components c)
    /\ Forall (fun p => numeric_scaling (snd p)) (__components c).
Proof.
  intros row w w' c H names widths n. revert H.
  unfold CompositeField_init, bind.
  destruct (single_int (field_no row) w) as [w1 [no|e]]; [|discriminate].
  unfold lift.
  destruct (map_res component _) as [comps|e] eqn:E; [|discriminate].
  unfold ret. intros H; inversion H; subst; clear H.
  cbn [c_name __components].
  rewrite zip_tuples in E. apply map_res_Forall2 in E.
  fold names widths n in E.
  pose proof (Forall2_length E) as Hlen. rewrite length_map, length_seq in Hlen.
  apply components_of_tuples in E; [|reflexivity].
  destruct E as (H1 & H2 & H3).
  rewrite (map_nth_firstn names n 0) in H1 by lia.
  rewrite (map_nth_firstn widths n 0) in H2 by lia.
  cbn [skipn] in H1, H2. repeat split; auto.
Qed.

(** X8: a [CompositeField] that [CompositeField.__init__] builds has as
    many components as the shorter of the row's component names and bit
    widths; they carry the stripped component names in order and the
    widths that [int] reads from the bit-width list, and none of them has
    a string for scale or offset. *)
Theorem CompositeField_init_components :
  forall (row : Row) (w w' : World A) (c : CompositeField),
    CompositeField_init row w = (w', Ok c) ->
    let names := split_values (components row) in
    let widths := split_values (bits row) in
    let n := Nat.min (List.length names) (List.length widths) in
    c_name c = field_name row
    /\ List.length (__components c) = n
    /\ map (fun p => name (snd p)) (__components c) = firstn n names
    /\ Forall2 (fun width p => py_int width = Ok (fst p))
               (firstn n widths) (__components c)
    /\ Forall (fun p => numeric_scaling (snd p)) (__components c).
Proof. exact CompositeField_init_shape. Qed.

(** X9: a row without bit widths cannot be made a [CompositeField]: the
    single tuple that [_zip] yields pairs the first component with
    [None], and [int(None)] raises [TypeError]. *)
Theorem CompositeField_init_without_bits :
  forall (row : Row) (w : World A),
    truthy (bits row) = false ->
    not_float (field_no row) = true ->
    snd (CompositeField_init row w) = Raise TypeError.
Proof.
  intros row w Hbits Hno. unfold CompositeField_init, bind.
  destruct (single_int_not_float _ w Hno) as (w1 & no & ->).
  rewrite zip_tuples.
  pose proof (split_values_shape (bits row)) as Hw.
  rewrite Hbits in Hw. rewrite Hw. cbn [List.length].
  rewrite Nat.min_r by apply split_values_nonempty.
  reflexivity.
Qed.

(** X10: no field that the factory returns has a string for scale or
    offset, so the test [isinstance(self._scale, str)] of
    [_parse_and_scale] is false for all of them. *)
Theorem MessageField_numeric_scaling :
  forall (row : Row) (rows : Rows) (types : Types) (w w' : World A) (field : Field),
    MessageField row rows types w = (w', Ok field) ->
    match field with
    | FRow r => numeric_scaling (scaled r)
    | FDynamic d => numeric_scaling (scaled (row_field d))
    | FComposite c => Forall (fun p => numeric_scaling (snd p)) (__components c)
    | FTyped _ | FDelegate _ => False
    end.
Proof.
  intros row rows types w w' field. unfold MessageField.
  assert (Hrow : forall w1 w2 r, RowField_init row types w1 = (w2, Ok r) ->
                                 numeric_scaling (scaled r)).
  { intros w1 w2 r Hr. apply RowField_init_shape in Hr.
    destruct Hr as (_ & _ & _ & [s Hs] & [o Ho] & _).
    unfold numeric_scaling. now rewrite Hs, Ho. }
  destruct (truthy (components row)).
  - unfold bind. destruct (CompositeField_init row w) as [w1 [c|e]] eqn:E;
      unfold ret; intros H; inversion H; subst.
    now apply CompositeField_init_shape in E.
  - destruct (is_override (peek rows)).
    + unfold DynamicField_init, bind.
      destruct (RowField_init row types w) as [w1 [r|e]] eqn:E;
        unfold ret; intros H; inversion H; subst.
      cbn [row_field]. eapply Hrow; exact E.
    + unfold bind. destruct (RowField_init row types w) as [w1 [r|e]] eqn:E;
        unfold ret; intros H; inversion H; subst.
      eapply Hrow; exact E.
Qed.

(** *** [CompositeField.parse] *)

(** X11: an [endian] that is not an index of the two-element list of byte
    orders, negative indices included, ends [CompositeField.parse] with
    [IndexError] before anything is decoded or yielded. *)
Theorem CompositeField_parse_endian :
  forall (c : CompositeField) (endian : Z),
    endian < -2 \/ 1 < endian ->
    forall fuel data count refs (accumulate : Accumulate A) message (w : World A),
      parse (S fuel) (FComposite c) data count endian refs accumulate message w
      = (w, Raise IndexError).
Proof.
  intros c endian Hendian fuel data count refs accumulate message w.
  rewrite parse_composite. unfold byteorder_of.
  destruct (endian =? 0) eqn:E0; [apply Z.eqb_eq in E0; lia|].
  destruct (endian =? -2) eqn:E2; [apply Z.eqb_eq in E2; lia|].
  destruct (endian =? 1) eqn:E1; [apply Z.eqb_eq in E1; lia|].
  destruct (endian =? -1) eqn:E3; [apply Z.eqb_eq in E3; lia|].
  reflexivity.
Qed.



(** X13: when the raw integer does not fit in the bytes of the first
    component -- the larger of its width in bytes and the size of its
    type -- [CompositeField.parse] raises and yields nothing: the
    shortage ([MemoryError], or [OverflowError] for too many digits) when
    the interpreter cannot build the mask [(1 << raw) - 1], and
    [OverflowError] from [to_bytes] when it can, as it always can for a
    raw integer below [small_shift]. *)
Theorem CompositeField_parse_overflow :
  forall (c : CompositeField) (nbits size : Z) (field : ScaledField)
         (rest : list (Z * ScaledField)) (data : list byte) (endian : Z)
         (order : byteorder) (message : Message),
    __components c = (nbits, field) :: rest ->
    byteorder_of endian = Ok order ->
    DelegateField_size field message = Ok size ->
    0 <= Z.max ((nbits + 7) / 8) size ->
    256 ^ Z.max ((nbits + 7) / 8) size <= from_bytes data order ->
    forall fuel count refs (accumulate : Accumulate A) (w : World A),
      let raw := from_bytes data order in
      parse (S fuel) (FComposite c) data count endian refs accumulate message w
      = (w, Raise (match mask_of raw with
                   | Ok _ => OverflowError
                   | Raise e => e
                   end))
      /\ (raw < small_shift -> mask_of raw = Ok (Z.shiftl 1 raw - 1)).
Proof.
  intros c nbits size field rest data endian order message Hc Horder Hsize
         Hnbytes Hbig fuel count refs accumulate w raw. subst raw.
  split; [|intros Hsmall; apply mask_of_small; split;
           [apply from_bytes_range|exact Hsmall]].
  rewrite parse_composite, Horder, Hc, composite_loop_cons, Hsize.
  destruct (mask_of (from_bytes data order)) as [mask|e] eqn:Hshift;
    [|reflexivity].
  apply mask_of_ok in Hshift. destruct Hshift as [_ ->].
  rewrite mask_keeps_all_bits by apply from_bytes_range.
  unfold to_bytes.
  replace (Z.max ((nbits + 7) / 8) size <? 0) with false
    by (symmetry; apply Z.ltb_ge; exact Hnbytes).
  replace (256 ^ Z.max ((nbits + 7) / 8) size <=? from_bytes data order)
    with true by (symmetry; apply Z.leb_le; exact Hbig).
  now rewrite orb_true_r.
Qed.

(** X14: when the first component names a field of the message that has
    no type -- a composite or a delegate -- [CompositeField.parse] ends
    with [AttributeError], raised by [DelegateField.size] before the
    delegate's own [parse] is called, and nothing is yielded. *)
Theorem CompositeField_parse_untyped_component :
  forall (c : CompositeField) (nbits : Z) (field : ScaledField)
         (rest : list (Z * ScaledField)) (endian : Z) (order : byteorder)
         (message : Message),
    __components c = (nbits, field) :: rest ->
    byteorder_of endian = Ok order ->
    forall fuel data count refs (accumulate : Accumulate A) (w : World A),
      let result :=
        parse (S fuel) (FComposite c) data count endian refs accumulate message w in
      match message (name field) with
      | Some (FComposite _) | Some (FDelegate _) =>
          result = (w, Raise AttributeError)
      | _ => True
      end.
Proof.
  intros c nbits field rest endian order message Hc Horder
         fuel data count refs accumulate w result.
  subst result. rewrite parse_composite, Horder, Hc, composite_loop_cons.
  unfold DelegateField_size.
  destruct (message (name field)) as [[t|t|s|c'|d]|]; cbn; auto.
Qed.

Lemma parse_delegate_row (s : ScaledField) (f : Field) (message : Message) :
  message (name s) = Some f ->
  isinstance_RowField f = true ->
  exists type,
    forall fuel data count endian refs (accumulate : Accumulate A) (w : World A),
      parse (S fuel) (FDelegate s) data count endian refs accumulate message w
      = _parse_and_scale s type data count endian accumulate w.
Proof.
  intros Hf Hrow.
  destruct f as [t|t|s'|c|d]; try discriminate.
  - exists (type_ t). intros. cbn [parse]. unfold profile_to_field.
    rewrite Hf. reflexivity.
  - exists (type_ (row_field d)). intros. cbn [parse]. unfold profile_to_field.
    rewrite Hf. reflexivity.
Qed.

Lemma composite_loop_entries (fuel : nat) (endian : Z) (refs : References)
  (accumulate : Accumulate A) (message : Message) (order : byteorder) :
  forall comps bits (w : World A),
    Forall (row_component message) comps ->
    let result :=
      composite_loop
        (fun field data =>
           parse (S fuel) (FDelegate field) data 1 endian refs accumulate message)
        message order bits comps w in
    exists entries,
      yielded (fst result) = (yielded w ++ entries)%list
      /\ match snd result with
         | Ok _ => map fst entries = map (fun p => name (snd p)) comps
         | Raise _ =>
             exists k, (k < List.length comps)%nat
                       /\ map fst entries
                          = firstn k (map (fun p => name (snd p)) comps)
         end.
Proof.
  induction comps as [|[nbits field] comps IH]; intros bits w Hall.
  - exists []. cbn. now rewrite app_nil_r.
  - inversion Hall as [|? ? (f & Hf & Hrow) Hall']; subst. cbn [snd] in Hf.
    destruct (parse_delegate_row field f message Hf Hrow) as [type Hparse].
    cbv zeta. rewrite composite_loop_cons.
    assert (Hstop : forall e : exn,
               exists entries : list Entry,
                 yielded (fst (w, @Raise unit e)) = (yielded w ++ entries)%list
                 /\ match snd (w, @Raise unit e) with
                    | Ok _ => map fst entries
                              = map (fun p => name (snd p))
                                    ((nbits, field) :: comps)
                    | Raise _ =>
                        exists k, (k < List.length ((nbits, field) :: comps))%nat
                                  /\ map fst entries
                                     = firstn k (map (fun p => name (snd p))
                                                     ((nbits, field) :: comps))
                    end).
    { intros e. exists []. cbn [fst snd]. rewrite app_nil_r.
      split; [reflexivity|]. exists 0%nat. cbn [List.length]. split; [lia|reflexivity]. }
    destruct (DelegateField_size field message) as [size|e]; [|apply Hstop].
    destruct (mask_of bits) as [mask|e]; [|apply Hstop].
    destruct (to_bytes _ _ order) as [buffer|e]; [|apply Hstop].
    destruct (nbits <? 0); [apply Hstop|].
    rewrite Hparse.
    pose proof (parse_and_scale_outcome field type buffer 1 endian accumulate w)
      as [_ Hone]. cbv zeta in Hone.
    destruct (_parse_and_scale field type buffer 1 endian accumulate w)
      as [w1 [[]|e]]; cbn [fst snd] in Hone.
    + destruct Hone as [values Hy].
      destruct (IH (Z.shiftr bits nbits) w1 Hall') as (entries & Hentries & Hnames).
      cbv zeta in Hentries, Hnames.
      exists ((name field, (values, _units field)) :: entries).
      rewrite Hentries, Hy, <- app_assoc. split; [reflexivity|].
      destruct (snd (composite_loop _ message order (Z.shiftr bits nbits)
                                    comps w1)).
      * cbn [map fst snd]. now rewrite Hnames.
      * destruct Hnames as (k & Hk & Hnames). exists (S k).
        cbn [List.length map fst snd firstn]. split; [lia|now rewrite Hnames].
    + destruct Hone as (Hy & _). exists []. cbn [fst snd].
      rewrite Hy, app_nil_r. split; [reflexivity|].
      exists 0%nat. cbn [List.length]. split; [lia|reflexivity].
Qed.

(** X15: when every component names a [RowField] or a [DynamicField] of
    the message, a [CompositeField.parse] that returns has yielded exactly
    one entry per component, in the order of declaration and under the
    component's name; one that raises has yielded the entries of the
    components before the one that failed, and no other. *)
Theorem CompositeField_parse_entries :
  forall (c : CompositeField) (message : Message),
    Forall (row_component message) (__components c) ->
    forall fuel data count endian refs (accumulate : Accumulate A) (w : World A),
      let result :=
        parse (S (S fuel)) (FComposite c) data count endian refs accumulate
              message w in
      let names := map (fun p => name (snd p)) (__components c) in
      exists entries,
        yielded (fst result) = (yielded w ++ entries)%list
        /\ match snd result with
           | Ok _ => map fst entries = names
           | Raise _ =>
               exists k, (k < S (List.length names))%nat
                         /\ map fst entries = firstn k names
           end.
Proof.
  intros c message Hall fuel data count endian refs accumulate w result names.
  subst result names. rewrite parse_composite.
  destruct (byteorder_of endian) as [order|e].
  - destruct (composite_loop_entries fuel endian refs accumulate message order
                (__components c) (from_bytes data order) w Hall)
      as (entries & Hy & Hnames).
    cbv zeta in Hy, Hnames. exists entries. split; [exact Hy|].
    destruct (snd (composite_loop _ message order (from_bytes data order)
                                  (__components c) w)); [exact Hnames|].
    destruct Hnames as (k & Hk & Hnames). exists k.
    rewrite length_map. split; [lia|exact Hnames].
  - exists []. cbn [fst snd]. rewrite app_nil_r. split; [reflexivity|].
    exists 0%nat. split; [lia|reflexivity].
Qed.







(** *** [DynamicField.parse] *)

Lemma parse_dynamic_loop (d : DynamicField) (fuel : nat) data count endian refs
  (accumulate : Accumulate A) message (w : World A) :
  parse (S fuel) (FDynamic d) data count endian refs accumulate message w
  = dynamic_loop
      (fun field_name =>
         field <- profile_to_field message field_name ;;
         parse fuel field data count endian refs accumulate message)
      (log_warn ("Could not resolve dynamic field "
                   ++ py_str (name (scaled (row_field d)))) [] ;;;
       _parse_and_scale (scaled (row_field d)) (type_ (row_field d))
                        data count endian accumulate)
      d refs (references d) w.
Proof. reflexivity. Qed.

(** X17: a tracked reference name that is reached and is in the
    references map without a first value stops [DynamicField.parse]:
    [TypeError] when its values are [None], [IndexError] when they are an
    empty tuple; no warning is logged, no fallback is tried and nothing is
    yielded. *)
Theorem DynamicField_parse_reference_without_values :
  forall (d : DynamicField) (refs : References) (before after : list pyval)
         (name : pyval) (values : Values) (units : pyval),
    references d = (before ++ name :: after)%list ->
    Forall (unresolved d refs) before ->
    dict_get py_eqb refs name = Some (values, units) ->
    forall fuel data count endian (accumulate : Accumulate A) message (w : World A),
      let result :=
        parse (S fuel) (FDynamic d) data count endian refs accumulate message w in
      match values with
      | None => result = (w, Raise TypeError)
      | Some [] => result = (w, Raise IndexError)
      | Some (_ :: _) => True
      end.
Proof.
  intros d refs before after name0 values units0 Hrefs Hbefore Hget
         fuel data count endian accumulate message w result.
  subst result. rewrite parse_dynamic_loop, Hrefs.
  rewrite dynamic_loop_unresolved by exact Hbefore.
  cbn [dynamic_loop]. unfold dict_in, first_value. rewrite Hget.
  destruct values as [[|v vs]|]; auto.
Qed.

(** X18: a [DynamicField] whose resolution leads back to itself -- the
    table sends the first tracked name that resolves to a field name that
    the message maps to this very field -- never returns: the calls nest
    until the depth allowed is used up, whatever that depth is. *)
Theorem DynamicField_parse_cycle :
  forall (d : DynamicField) (refs : References) (before after : list pyval)
         (name value field_name : pyval) (message : Message),
    references d = (before ++ name :: after)%list ->
    Forall (unresolved d refs) before ->
    dict_in py_eqb refs name = true ->
    first_value refs name = Ok value ->
    dict_get key_eqb (__dynamic_lookup d) (name, value) = Some field_name ->
    message field_name = Some (FDynamic d) ->
    forall fuel data count endian (accumulate : Accumulate A) (w : World A),
      parse fuel (FDynamic d) data count endian refs accumulate message w
      = (w, Raise RecursionError).
Proof.
  intros d refs before after name0 value field_name0 message Hrefs Hbefore Hin
         Hvalue Hget Hself fuel data count endian accumulate w.
  induction fuel as [|fuel IH]; [reflexivity|].
  rewrite parse_dynamic_loop, Hrefs.
  rewrite dynamic_loop_unresolved by exact Hbefore.
  cbn [dynamic_loop]. rewrite Hin, Hvalue.
  unfold bind at 1, lift at 1. rewrite Hget.
  unfold bind, profile_to_field. rewrite Hself. unfold ret. exact IH.
Qed.

(** *** [DynamicField.__init__] *)

Lemma py_eqb_split_value (a b : pyval) :
  split_value a -> split_value b -> (py_eqb a b = true <-> a = b).
Proof.
  intros [->|(s & -> & _)] [->|(t & -> & _)]; cbn [py_eqb];
    split; try congruence; try reflexivity.
  - intros H. apply String.eqb_eq in H. now subst.
  - intros H. inversion H. apply String.eqb_refl.
Qed.

Lemma key_eqb_split_value (k k' : pyval * pyval) :
  split_value (fst k) -> split_value (snd k) ->
  split_value (fst k') -> split_value (snd k') ->
  (key_eqb k k' = true <-> k = k').
Proof.
  intros H1 H2 H3 H4. unfold key_eqb. rewrite andb_true_iff.
  rewrite (py_eqb_split_value _ _ H1 H3), (py_eqb_split_value _ _ H2 H4).
  destruct k, k'; cbn [fst snd]. split.
  - intros [-> ->]; reflexivity.
  - intros H; inversion H; now split.
Qed.

(** The tuples of [_zip] for two fields are pairs of values of [__split]. *)
Lemma zip_pairs (first second : pyval) (t : list pyval) :
  In t (_zip [first; second]) ->
  exists a b, t = [a; b] /\ split_value a /\ split_value b.
Proof.
  rewrite zip_tuples. intros H. apply in_map_iff in H.
  destruct H as (i & <- & Hi). apply in_seq in Hi.
  unfold lockstep. cbn [map]. eexists _, _. split; [reflexivity|].
  pose proof (split_values_are_split_values first) as H1.
  pose proof (split_values_are_split_values second) as H2.
  rewrite Forall_forall in H1, H2.
  split; [apply H1|apply H2]; apply nth_In; lia.
Qed.

Lemma dict_get_set_same {K V} (keq : K -> K -> bool) (d : list (K * V)) (k : K)
  (v : V) :
  keq k k = true -> dict_get keq (dict_set keq d k v) k = Some v.
Proof.
  intros Hk. induction d as [|[k' v'] d IH]; cbn [dict_set dict_get].
  - now rewrite Hk.
  - destruct (keq k' k) eqn:E; cbn [dict_get]; rewrite E; [reflexivity|exact IH].
Qed.

Lemma dict_get_set_other {K V} (keq : K -> K -> bool) (d : list (K * V))
  (k k2 : K) (v : V) :
  dict_get keq (dict_set keq d k2 v) k = Some v
  \/ dict_get keq (dict_set keq d k2 v) k = dict_get keq d k.
Proof.
  induction d as [|[k' v'] d IH]; cbn [dict_set dict_get].
  - destruct (keq k2 k); auto.
  - destruct (keq k' k2); cbn [dict_get]; destruct (keq k' k); auto.
Qed.

Lemma register_row_wins (fn : pyval) (tuples : list (list pyval)) :
  (forall t, In t tuples ->
             exists a b, t = [a; b] /\ split_value a /\ split_value b) ->
  forall st n v,
    In [n; v] tuples \/ dict_get key_eqb (snd st) (n, v) = Some fn ->
    dict_get key_eqb (snd (fold_left (register fn) tuples st)) (n, v) = Some fn.
Proof.
  induction tuples as [|t tuples IH]; intros Hshape st n v H.
  - destruct H as [[]|H]; exact H.
  - cbn [fold_left]. apply IH; [intros t' Ht'; apply Hshape; now right|].
    destruct (Hshape t (or_introl eq_refl)) as (a & b & -> & Ha & Hb).
    cbn [register snd].
    destruct H as [[H|H]|H].
    + inversion H; subst. right. apply dict_get_set_same.
      now apply key_eqb_split_value.
    + now left.
    + right. destruct (dict_get_set_other key_eqb (snd st) (n, v) (a, b) fn)
        as [H'|H']; [exact H'|now rewrite H'].
Qed.

(** X19: when several override rows carry the same reference name and
    value, the row that comes last decides: after the last row, each of
    its pairs is mapped to its own field name. *)
Theorem lookup_of_last_row :
  forall (overrides : list Row) (row : Row) (n v : pyval),
    In [n; v] (_zip [ref_name row; ref_value row]) ->
    dict_get key_eqb (lookup_of (overrides ++ [row])) (n, v)
    = Some (field_name row).
Proof.
  intros overrides row n v Hin. unfold lookup_of.
  rewrite fold_left_app. cbn [fold_left].
  apply register_row_wins; [apply zip_pairs|now left].
Qed.

Lemma set_add_spec (s : list pyval) (v : pyval) :
  Forall split_value s -> split_value v ->
  (forall x, In x (set_add s v) <-> In x s \/ x = v)
  /\ (NoDup s -> NoDup (set_add s v))
  /\ Forall split_value (set_add s v).
Proof.
  intros Hs Hv. induction s as [|y s IH]; cbn [set_add].
  - repeat split.
    + intros [->|[]]; now right.
    + intros [[]| ->]; now left.
    + intros _. constructor; [intros []|constructor].
    + constructor; [exact Hv|constructor].
  - inversion Hs as [|? ? Hy Hs']; subst.
    destruct (IH Hs') as (Hin & Hnd & Hall).
    destruct (py_eqb y v) eqn:E.
    + apply (py_eqb_split_value _ _ Hy Hv) in E. subst y.
      repeat split; auto.
      intros [H| ->]; [exact H|now left].
    + assert (Hne : y <> v).
      { intros ->. rewrite (proj2 (py_eqb_split_value v v Hv Hv) eq_refl) in E.
        discriminate. }
      repeat split.
      * intros [->|H]; [left; now left|].
        apply Hin in H. destruct H as [H|H]; [left; now right|now right].
      * intros [[->|H]| ->]; [now left|right; apply Hin; now left|
                             right; apply Hin; now right].
      * intros Hnd'. inversion Hnd' as [|? ? Hnotin Hnd'']; subst.
        constructor; [|now apply Hnd].
        intros H. apply Hin in H. destruct H as [H|H]; [now apply Hnotin|].
        now apply Hne.
      * constructor; [exact Hy|exact Hall].
Qed.

Section DictSet.
Context {K V : Type} (keq : K -> K -> bool) (k : K) (v : V).

Lemma dict_set_in (d : list (K * V)) :
  (forall k', In k' (map fst d) -> keq k' k = true -> k' = k) ->
  forall k' v', In (k', v') (dict_set keq d k v) ->
                In (k', v') d \/ (k' = k /\ v' = v).
Proof.
  induction d as [|[k0 v0] d IH]; intros Hkeys k' v'; cbn [dict_set].
  - intros [H|[]]. inversion H. now right.
  - destruct (keq k0 k) eqn:E.
    + intros [H|H]; [|left; now right].
      inversion H; subst. right. split; [|reflexivity].
      apply Hkeys; [now left|exact E].
    + intros [H|H]; [left; now left|].
      destruct (IH (fun k1 H1 => Hkeys k1 (or_intror H1)) k' v' H) as [H'|H'];
        [left; now right|now right].
Qed.

Lemma dict_set_has (d : list (K * V)) :
  (forall k', In k' (map fst d) -> keq k' k = true -> k' = k) ->
  In (k, v) (dict_set keq d k v).
Proof.
  induction d as [|[k0 v0] d IH]; intros Hkeys; cbn [dict_set]; [now left|].
  destruct (keq k0 k) eqn:E.
  - left. f_equal. apply Hkeys; [now left|exact E].
  - right. apply IH. intros k1 H1. apply Hkeys. now right.
Qed.

Lemma dict_set_keeps (d : list (K * V)) :
  forall k' v', In (k', v') d -> exists v'', In (k', v'') (dict_set keq d k v).
Proof.
  induction d as [|[k0 v0] d IH]; intros k' v' H; [contradiction|].
  cbn [dict_set]. destruct (keq k0 k).
  - destruct H as [H|H]; [inversion H; subst; exists v; now left|].
    exists v'. now right.
  - destruct H as [H|H]; [exists v'; now left|].
    destruct (IH k' v' H) as [v'' H']. exists v''. now right.
Qed.

Lemma dict_set_keys (d : list (K * V)) :
  keq k k = true ->
  (forall k', In k' (map fst d) -> keq k' k = true -> k' = k) ->
  map fst (dict_set keq d k v) = map fst d
  \/ (map fst (dict_set keq d k v) = (map fst d ++ [k])%list
      /\ ~ In k (map fst d)).
Proof.
  intros Hrefl.
  induction d as [|[k0 v0] d IH]; intros Hkeys; cbn [dict_set map fst].
  - right. split; [reflexivity|intros []].
  - destruct (keq k0 k) eqn:E; [now left|].
    destruct (IH (fun k1 H1 => Hkeys k1 (or_intror H1))) as [H|[H Hnot]].
    + left. cbn [map fst]. now rewrite H.
    + right. cbn [map fst app]. rewrite H. split; [reflexivity|].
      intros [H'|H']; [|now apply Hnot].
      subst k0. rewrite Hrefl in E. discriminate.
Qed.

End DictSet.

Lemma NoDup_snoc {X} (l : list X) (x : X) :
  NoDup l -> ~ In x l -> NoDup (l ++ [x]).
Proof.
  intros Hl Hx. apply (Permutation_NoDup (l := x :: l)).
  - apply Permutation_cons_append.
  - now constructor.
Qed.

Lemma register_consistent (P : pyval -> Prop) (fn n v : pyval)
  (st : list pyval * list ((pyval * pyval) * pyval)) :
  consistent P st -> split_value n -> split_value v -> P fn ->
  consistent P (register fn st [n; v]).
Proof.
  intros (Hall & Hnd & Hkeys & Hentries & Hrefs) Hn Hv Hfn.
  cbn [register].
  destruct (set_add_spec (fst st) n Hall Hn) as (Hin & Hnd' & Hall').
  assert (Hleib : forall k', In k' (map fst (snd st)) ->
                             key_eqb k' (n, v) = true -> k' = (n, v)).
  { intros k' Hk' E. apply in_map_iff in Hk'.
    destruct Hk' as ([k0 fn0] & <- & Hk0). cbn [fst].
    destruct (Hentries k0 fn0 Hk0) as (H1 & H2 & _).
    now apply (key_eqb_split_value k0 (n, v) H1 H2 Hn Hv). }
  assert (Hrefl : key_eqb (n, v) (n, v) = true)
    by now apply (key_eqb_split_value (n, v) (n, v) Hn Hv Hn Hv).
  unfold consistent. cbn [fst snd].
  split; [exact Hall'|]. split; [now apply Hnd'|]. split.
  { destruct (dict_set_keys key_eqb (n, v) fn (snd st) Hrefl Hleib)
      as [->|[-> Hnot]]; [exact Hkeys|now apply NoDup_snoc]. }
  split.
  - intros k fn' Hk. apply dict_set_in in Hk; [|exact Hleib].
    destruct Hk as [Hk|[-> ->]].
    + destruct (Hentries k fn' Hk) as (H1 & H2 & H3 & H4).
      repeat split; auto. apply Hin. now left.
    + cbn [fst snd]. repeat split; auto. apply Hin. now right.
  - intros x Hx. apply Hin in Hx. destruct Hx as [Hx| ->].
    + destruct (Hrefs x Hx) as (v' & fn' & H').
      destruct (dict_set_keeps key_eqb (n, v) fn (snd st) _ _ H') as [fn'' H''].
      now exists v', fn''.
    + exists v, fn. now apply dict_set_has.
Qed.

Lemma fold_register_consistent (P : pyval -> Prop) (fn : pyval)
  (tuples : list (list pyval)) :
  (forall t, In t tuples ->
             exists a b, t = [a; b] /\ split_value a /\ split_value b) ->
  P fn ->
  forall st, consistent P st -> consistent P (fold_left (register fn) tuples st).
Proof.
  intros Hshape Hfn.
  induction tuples as [|t tuples IH]; intros st Hst; [exact Hst|].
  cbn [fold_left]. apply IH; [intros t' Ht'; apply Hshape; now right|].
  destruct (Hshape t (or_introl eq_refl)) as (a & b & -> & Ha & Hb).
  now apply register_consistent.
Qed.

Lemma lookahead_loop_consistent (P : pyval -> Prop) :
  forall (rows : list (option Row)) st,
    (forall r, In (Some r) rows -> named_without_number r -> P (field_name r)) ->
    consistent P st -> consistent P (lookahead_loop rows st).
Proof.
  induction rows as [|row rows IH]; intros st HP Hst; [exact Hst|].
  cbn [lookahead_loop].
  destruct (is_override row) eqn:E; [|exact Hst].
  destruct row as [r|]; [|exact Hst].
  apply IH; [intros r' Hr'; apply HP; now right|].
  apply fold_register_consistent; [apply zip_pairs| |exact Hst].
  apply HP; [now left|].
  cbn [is_override] in E. apply andb_true_iff in E. destruct E as [E1 E2].
  split; [exact E1|now apply is_None_true].
Qed.

(** X20: [DynamicField.__init__] keeps the set of references and the
    table in step: no reference is tracked twice, the keys of the table
    are distinct, a name is tracked exactly when the table has a key with
    that name, and every field name in the table is the name of one of
    the rows of the lookahead that has a field name and no field
    number. *)
Theorem DynamicField_init_consistent :
  forall (row : Row) (rows : Rows) (types : Types) (w w' : World A)
         (d : DynamicField),
    (forall l, Permutation (set_order l) l) ->
    DynamicField_init row rows types w = (w', Ok d) ->
    NoDup (references d)
    /\ NoDup (map fst (__dynamic_lookup d))
    /\ (forall name,
          In name (references d)
          <-> exists value fname,
                In ((name, value), fname) (__dynamic_lookup d))
    /\ (forall key fname,
          In (key, fname) (__dynamic_lookup d) ->
          exists r, In (Some r) rows /\ named_without_number r
                    /\ fname = field_name r).
Proof.
  intros row rows types w w' d Hperm. unfold DynamicField_init, bind.
  destruct (RowField_init row types w) as [w1 [r|e]]; [|discriminate].
  unfold ret. intros H; inversion H; subst; clear H.
  cbn [references __dynamic_lookup]. unfold lookahead.
  set (P := fun fn => exists r, In (Some r) rows /\ named_without_number r
                                /\ fn = field_name r).
  assert (Hst : consistent P (lookahead_loop rows ([], []))).
  { apply lookahead_loop_consistent.
    - intros r0 Hin Hnamed. now exists r0.
    - unfold consistent. cbn [fst snd map].
      repeat split; try constructor; intros; contradiction. }
  destruct Hst as (_ & Hnd & Hkeys & Hentries & Hrefs).
  split; [apply (Permutation_NoDup (Permutation_sym (Hperm _)) Hnd)|].
  split; [exact Hkeys|]. split.
  - intros n. split.
    + intros Hn. apply Hrefs. apply (Permutation_in _ (Hperm _) Hn).
    + intros (v & fn & Hin).
      apply (Permutation_in _ (Permutation_sym (Hperm _))).
      now destruct (Hentries _ _ Hin) as (_ & _ & H & _).
  - intros k fn Hin. now destruct (Hentries _ _ Hin) as (_ & _ & _ & H).
Qed.

(** *** [Row.__new__] *)

(** X21: a [Row] is made of the first sixteen cells of the sequence it is
    given, in order, whatever follows them; a sequence of fewer than
    sixteen cells is refused with [TypeError]. *)
Theorem Row_new_cells :
  forall cells : list pyval,
    match Row_new cells with
    | Ok r =>
        (16 <= List.length cells)%nat
        /\ [msg_name r; field_no r; field_name r; field_type r; array r;
            components r; scale r; offset r; units r; bits r; accumulate r;
            ref_name r; ref_value r; comment r; products r; example r]
           = firstn 16 cells
    | Raise e => e = TypeError /\ (List.length cells < 16)%nat
    end.
Proof.
  intros cells.
  do 16 (destruct cells as [|? cells];
         [cbn; split; [reflexivity|lia]|]).
  cbn. split; [lia|reflexivity].
Qed.

(** *** [CompositeField.__init__]: scale and offset *)

Lemma Forall2_nth_error {X Y} (R : X -> Y -> Prop) (xs : list X) (ys : list Y) :
  Forall2 R xs ys ->
  forall i y, nth_error ys i = Some y ->
              exists x, nth_error xs i = Some x /\ R x y.
Proof.
  induction 1 as [|x y xs ys Hxy Hrest IH]; intros i y0 Hi.
  - destruct i; discriminate.
  - destruct i as [|i]; cbn [nth_error] in *.
    + inversion Hi; subst. now exists x.
    + now apply IH.
Qed.

Lemma nth_error_map_seq {X} (f : nat -> X) (n i : nat) (x : X) :
  nth_error (map f (seq 0 n)) i = Some x -> x = f i.
Proof.
  intros H. rewrite nth_error_map in H.
  destruct (nth_error (seq 0 n) i) as [j|] eqn:E; [|discriminate].
  cbn in H. inversion H; subst.
  assert (Hi : (i < n)%nat).
  { rewrite <- (length_seq n 0). apply nth_error_Some. congruence. }
  rewrite (nth_error_nth' _ 0%nat) in E by (now rewrite length_seq).
  rewrite seq_nth in E by exact Hi. now inversion E.
Qed.

(** X22: a component for which the row's scale list and offset list have
    no entry -- the lists are shorter than the component list, or absent
    -- gets the default scale 1 and offset 0 and is not scaled. *)
Theorem CompositeField_init_default_scale :
  forall (row : Row) (w w' : World A) (c : CompositeField) (i : nat)
         (p : Z * ScaledField),
    CompositeField_init row w = (w', Ok c) ->
    nth_error (__components c) i = Some p ->
    nth i (split_values (scale row)) PNone = PNone ->
    nth i (split_values (offset row)) PNone = PNone ->
    _scale (snd p) = PInt 1 /\ _offset (snd p) = PInt 0
    /\ _is_scaled (snd p) = false.
Proof.
  intros row w w' c i p. unfold CompositeField_init, bind.
  destruct (single_int (field_no row) w) as [w1 [no|e]]; [|discriminate].
  unfold lift.
  destruct (map_res component _) as [comps|e] eqn:E; [|discriminate].
  unfold ret. intros H; inversion H; subst; clear H.
  cbn [__components]. intros Hp Hscale Hoffset.
  rewrite zip_tuples in E. apply map_res_Forall2 in E.
  destruct (Forall2_nth_error _ _ _ E i p Hp) as (t & Ht & Hcomponent).
  apply nth_error_map_seq in Ht. subst t.
  unfold lockstep in Hcomponent. cbn [map] in Hcomponent.
  rewrite Hscale, Hoffset in Hcomponent. unfold component in Hcomponent.
  destruct (py_int _) as [nbits|e]; cbn in Hcomponent; [|discriminate].
  inversion Hcomponent; subst. repeat split.
Qed.

(** A warning logged before [_parse_and_scale] runs is still the last
    record of the log after it: the decode itself logs nothing. *)
Lemma parse_and_scale_after_warning (self : ScaledField) (type : FitType)
  data count endian (accumulate : Accumulate A) (w : World A) msg args :
  _parse_and_scale self type data count endian accumulate (warned w msg args)
  = (warned (fst (_parse_and_scale self type data count endian accumulate w))
            msg args,
     snd (_parse_and_scale self type data count endian accumulate w)).
Proof.
  rewrite !parse_and_scale_run.
  destruct (type_parse type data count endian) as [raw|]; [|reflexivity].
  cbv zeta.
  destruct (_is_scaled self
            && (existsb isinstance_str raw || isinstance_str (_scale self)));
    (destruct (if _is_scaled self then map_res (scale_value self) raw
               else Ok raw) as [values|e]; [|reflexivity]);
    (destruct (truthy (_is_accumulate self)); [|reflexivity]);
    cbn [acc printed warned];
    destruct (accumulate self values (acc w)); reflexivity.
Qed.

(** The fallback pins the diagnostic: the log gains the one record that
    the field could not be resolved, and the result, the entries, the
    accumulator and the output are those of the plain [RowField] built
    from the same row decoding the same buffer. *)
Lemma DynamicField_parse_fallback_log :
  forall (row : Row) (rows : Rows) (types : Types) (w0 w1 : World A)
         (d : DynamicField) (refs : References),
    DynamicField_init row rows types w0 = (w1, Ok d) ->
    Forall (unresolved d refs) (references d) ->
    exists r : TypedField,
      RowField_init row types w0 = (w1, Ok r)
      /\ forall fuel data count endian (accumulate : Accumulate A) message
                (w : World A),
          let diagnostic :=
            "Could not resolve dynamic field " ++ py_str (field_name row) in
          let dynamic :=
            parse (S fuel) (FDynamic d) data count endian refs accumulate
                  message w in
          let plain :=
            parse (S fuel) (FRow r) data count endian refs accumulate message w in
          dynamic = (warned (fst plain) diagnostic [], snd plain)
          /\ warnings (fst dynamic)
             = (warnings w ++ [Warn diagnostic []])%list.
Proof.
  intros row rows types w0 w1 d refs Hinit Hall.
  destruct (DynamicField_parse_fallback row rows types w0 w1 d refs Hinit Hall)
    as (r & Hr & Hparse).
  exists r. split; [exact Hr|].
  intros fuel data count endian accumulate message w diagnostic dynamic plain.
  subst dynamic plain diagnostic. rewrite Hparse. cbn [parse].
  rewrite parse_and_scale_after_warning. split; [reflexivity|].
  cbn [fst warned warnings].
  pose proof (parse_and_scale_outcome (scaled r) (type_ r) data count endian
                                      accumulate w) as [Hlog _].
  cbv zeta in Hlog. now rewrite Hlog.
Qed.

End Fields.

Arguments single_int {A} value w.
Arguments _parse_and_scale {A} self type data count endian accumulate w.
Arguments RowField_init {A} row types w.
Arguments CompositeField_init {A} float_repr float_of_str row w.
Arguments DynamicField_init {A} float_repr set_order row rows types w.
Arguments MessageField {A} float_repr float_of_str set_order row rows types w.
Arguments parse {A} float_repr shortage_at fuel self data count endian refs accumulate message w.
Arguments emitted {A} w e.
Arguments warned {A} w msg args.

(** ** The properties on the sample data *)

(** C1 (code defect): on the composite row with components [a,b] of [3,5]
    bits and the single little-endian byte [0b00010101], without scaling,
    [CompositeField.parse] yields [a = 21] and [b = 2]: the mask is
    [(1 << bits) - 1], built from the running integer instead of the
    component's width, so it removes no bit and [a] is the whole byte,
    not its three low-order bits [0b101 = 5]. *)
Theorem CompositeField_parse_sample :
  forall (float_repr : spec_float -> string)
         (float_of_str : string -> option spec_float)
         (shortage_at : Z -> option shortage) (fuel : nat),
    (c <- CompositeField_init float_repr float_of_str composite_row ;;
     parse float_repr shortage_at (S (S fuel)) (FComposite c) [x15] 1 0 []
           no_accumulate (sample_message ["a"; "b"])) w0
    = ({| acc := tt; warnings := []; stdout := [];
          yielded := [(PStr "a", (Some [PInt 21], PNone));
                      (PStr "b", (Some [PInt 2], PNone))] |}, Ok tt).
Proof. intros float_repr float_of_str shortage_at fuel. reflexivity. Qed.

(** C5 (code defect): the tracked names are [A] and [B]; the references
    map holds [A] with the values [None], the entry that a field named
    [A] yields for a buffer that its type cannot decode, and does not
    hold [B].  No tracked name resolves: [B] is absent, and [A] has no
    first value and no entry in the table under [None].
    [DynamicField.parse] nevertheless takes [references[name][0][0]] at
    line 129 and raises [TypeError]: it logs no diagnostic and yields
    nothing, where the plain [RowField] of the same row yields [d = 7]
    for the same buffer. *)
Theorem DynamicField_parse_valueless_sample :
  forall (float_repr : spec_float -> string)
         (shortage_at : Z -> option shortage) (fuel : nat),
    let d := sample_dynamic [PStr "A"; PStr "B"] in
    yielded (fst (_parse_and_scale (scaled (plain_field 0 "A")) uint8 [] 1 0
                                   no_accumulate w0))
    = valueless_references
    /\ dict_in py_eqb valueless_references (PStr "B") = false
    /\ first_value valueless_references (PStr "A") = Raise TypeError
    /\ dict_get key_eqb (__dynamic_lookup d) (PStr "A", PNone) = None
    /\ parse float_repr shortage_at (S fuel) (FDynamic d) [x07] 1 0
             valueless_references no_accumulate (sample_message ["X"; "Y"]) w0
       = (w0, Raise TypeError)
    /\ parse float_repr shortage_at (S fuel) (FRow (row_field d)) [x07] 1 0
             valueless_references no_accumulate (sample_message ["X"; "Y"]) w0
       = (emitted w0 (PStr "d", (Some [PInt 7], PNone)), Ok tt).
Proof. intros float_repr shortage_at fuel d. repeat split. Qed.

Lemma parse_and_scale_no_values_witness :
  type_parse uint8 [] 1 0 = None
  /\ _parse_and_scale (scaled (plain_field 0 "a")) uint8 [] 1 0 no_accumulate w0
     = (emitted w0 (PStr "a", (None, PNone)), Ok tt).
Proof.
  split; [reflexivity|].
  apply (parse_and_scale_no_values unit sample_repr sample_memory
           (scaled (plain_field 0 "a")) uint8 [] 1 0 no_accumulate w0).
  reflexivity.
Defined.

(** An empty buffer decodes to nothing, and the field still yields an
    entry, whose values are [None]. *)
Lemma undecodable_buffer_is_yielded :
  type_parse uint8 [] 1 0 = None
  /\ yielded (fst (_parse_and_scale (scaled (plain_field 0 "a")) uint8 [] 1 0
                                   no_accumulate w0))
     = [(PStr "a", (None, PNone))]
  /\ yielded (fst (_parse_and_scale (scaled (plain_field 0 "a")) uint8 [] 1 0
                                   no_accumulate w0))
     <> [].
Proof. split; [reflexivity|split; [reflexivity|discriminate]]. Qed.

Lemma DynamicField_parse_first_match_witness :
  references (sample_dynamic [PStr "A"; PStr "B"]) = ([] ++ PStr "A" :: [PStr "B"])%list
  /\ Forall (unresolved (sample_dynamic [PStr "A"; PStr "B"])
                        [(PStr "A", (Some [PInt 1], PNone))]) []
  /\ dict_in py_eqb [(PStr "A", (Some [PInt 1], PNone))] (PStr "A") = true
  /\ first_value [(PStr "A", (Some [PInt 1], PNone))] (PStr "A") = Ok (PInt 1)
  /\ dict_get key_eqb (__dynamic_lookup (sample_dynamic [PStr "A"; PStr "B"]))
              (PStr "A", PInt 1) = Some (PStr "X")
  /\ parse sample_repr sample_memory 2
           (FDynamic (sample_dynamic [PStr "A"; PStr "B"])) [x07] 1 0
           [(PStr "A", (Some [PInt 1], PNone))] no_accumulate
           (sample_message ["X"; "Y"]) w0
     = (emitted w0 (PStr "X", (Some [PInt 7], PNone)), Ok tt).
Proof.
  repeat (split; [reflexivity || constructor|]).
  rewrite (DynamicField_parse_first_match unit sample_repr sample_memory
             (sample_dynamic [PStr "A"; PStr "B"])
             [(PStr "A", (Some [PInt 1], PNone))] [] [PStr "B"]
             (PStr "A") (PInt 1) (PStr "X")
             eq_refl (Forall_nil _) eq_refl eq_refl eq_refl).
  reflexivity.
Defined.

(** With [B] before [A] in the iteration the example selects [X] all the
    same, because [B] is not in the references map. *)
Lemma sample_dynamic_other_order :
  parse sample_repr sample_memory 2
        (FDynamic (sample_dynamic [PStr "B"; PStr "A"])) [x07] 1 0
        [(PStr "A", (Some [PInt 1], PNone))] no_accumulate
        (sample_message ["X"; "Y"]) w0
  = (emitted w0 (PStr "X", (Some [PInt 7], PNone)), Ok tt).
Proof. reflexivity. Qed.

(** The rows declare the reference [A] before [B]; the set may be iterated
    with [B] first, and when both resolve the field selected is then [Y],
    the one of the name declared last. *)
Lemma first_match_not_in_declaration_order :
  let rows := [Some (override_row "X" "A" "1"); Some (override_row "Y" "B" "1")] in
  let refs := [(PStr "A", (Some [PStr "1"], PNone));
               (PStr "B", (Some [PStr "1"], PNone))] in
  fst (lookahead_loop sample_repr rows ([], [])) = [PStr "A"; PStr "B"]
  /\ Permutation (rev [PStr "A"; PStr "B"]) [PStr "A"; PStr "B"]
  /\ exists d,
      DynamicField_init sample_repr (@rev pyval) (simple_row 1 "d") rows
                        sample_types w0 = (w0, Ok d)
      /\ parse sample_repr sample_memory 2 (FDynamic d) [x07] 1 0 refs
               no_accumulate (sample_message ["X"; "Y"]) w0
         = (emitted w0 (PStr "Y", (Some [PInt 7], PNone)), Ok tt).
Proof.
  split; [reflexivity|]. split; [apply Permutation_sym, Permutation_rev|].
  eexists. split; [cbv; reflexivity|reflexivity].
Qed.

Lemma ScaledField_scaling_witness :
  type_parse uint8 [x07] 1 0 = Some [PInt 7]
  /\ yielded (fst (_parse_and_scale
                     (ScaledField_init (PStr "a") PNone (PInt 2) PNone PNone)
                     uint8 [x07] 1 0 no_accumulate w0))
     = [(PStr "a",
         (Some [PFloat (S754_finite false 7881299347898368 (-51))], PNone))].
Proof.
  split; [reflexivity|].
  destruct (ScaledField_scaling unit (PStr "a") PNone (PInt 2) PNone PNone
              uint8 [x07] 1 0 no_accumulate w0 [PInt 7] eq_refl)
    as (_ & _ & _ & H & _).
  exact (proj2 (H eq_refl _ eq_refl)).
Defined.

(** A field with the default scale and offset whose accumulate flag is set
    emits what the accumulator returns, here [8] for the decoded [7]. *)
Lemma accumulated_values_differ :
  let self := ScaledField_init (PStr "a") PNone PNone PNone (PInt 1) in
  let w := {| acc := 0; warnings := []; stdout := []; yielded := [] |} in
  _scale self = PInt 1 /\ _offset self = PInt 0 /\ _is_scaled self = false
  /\ type_parse uint8 [x07] 1 0 = Some [PInt 7]
  /\ yielded (fst (_parse_and_scale self uint8 [x07] 1 0 counting_accumulate w))
     = [(PStr "a", (Some [PInt 8], PNone))].
Proof. repeat (split; [reflexivity|]). reflexivity. Qed.

Lemma DynamicField_parse_fallback_witness :
  let d := {| row_field := plain_field 1 "d";
              __dynamic_lookup := [((PStr "A", PStr "1"), PStr "X")];
              references := [PStr "A"] |} in
  DynamicField_init sample_repr (fun s => s) (simple_row 1 "d")
                    [Some (override_row "X" "A" "1")] sample_types w0
  = (w0, Ok d)
  /\ Forall (unresolved d []) (references d)
  /\ parse sample_repr sample_memory 1 (FDynamic d) [x07] 1 0 [] no_accumulate
           (sample_message ["X"]) w0
     = parse sample_repr sample_memory 1 (FRow (plain_field 1 "d")) [x07] 1 0
             [] no_accumulate (sample_message ["X"])
             (warned w0 "Could not resolve dynamic field d" []).
Proof.
  intros d.
  assert (Hinit : DynamicField_init sample_repr (fun s => s) (simple_row 1 "d")
                    [Some (override_row "X" "A" "1")] sample_types w0
                  = (w0, Ok d)) by reflexivity.
  assert (Hall : Forall (unresolved d []) (references d))
    by (repeat constructor).
  split; [exact Hinit|]. split; [exact Hall|].
  destruct (DynamicField_parse_fallback unit sample_repr (fun s => s)
              sample_memory
              (simple_row 1 "d") [Some (override_row "X" "A" "1")] sample_types
              w0 w0 d [] Hinit Hall) as (r & Hr & Hparse).
  rewrite Hparse. cbv in Hr. injection Hr as <-. reflexivity.
Defined.

Lemma DelegateField_parse_cases_witness :
  sample_mixed_message (name (scaled_delegate "c"))
  = Some (FComposite {| c_name := PStr "c"; c_number := PInt 0;
                        __components := [] |})
  /\ parse sample_repr sample_memory 1 (FDelegate (scaled_delegate "c")) [x08]
           1 0 [] no_accumulate sample_mixed_message w0
     = (w0, Raise (Exception "Scaled component is not a simple field")).
Proof.
  split; [reflexivity|].
  destruct (DelegateField_parse_cases unit sample_repr sample_memory
              (scaled_delegate "c") _
              sample_mixed_message eq_refl 0%nat [x08] 1 0 [] no_accumulate w0)
    as (_ & H & _).
  exact (H eq_refl eq_refl).
Defined.

(** The delegate is scaled and the field its name resolves to is a
    [DynamicField], not a plain [RowField]; no error is raised: the byte
    is decoded with the dynamic field's own type and scaled. *)
Lemma scaled_delegate_to_dynamic_field :
  sample_mixed_message (name (scaled_delegate "d"))
  = Some (FDynamic {| row_field := plain_field 1 "d";
                      __dynamic_lookup := [];
                      references := [] |})
  /\ _is_scaled (scaled_delegate "d") = true
  /\ parse sample_repr sample_memory 1 (FDelegate (scaled_delegate "d")) [x08]
           1 0 [] no_accumulate sample_mixed_message w0
     = (emitted w0 (PStr "d",
                    (Some [PFloat (S754_finite false 4503599627370496 (-50))],
                     PNone)),
        Ok tt).
Proof. split; [reflexivity|split; reflexivity]. Qed.

Lemma CompositeField_parse_past_end_witness :
  8 * Z.of_nat (List.length [x15]) <= total_bits [byte_component "a"]
  /\ parse sample_repr sample_memory 2
           (sample_composite ([byte_component "a"] ++ [byte_component "b"])) [x15]
           1 0 [] no_accumulate (sample_message ["a"; "b"]) w0
     = parse sample_repr sample_memory 2 (sample_composite [byte_component "b"])
             [] 1 0 [] no_accumulate (sample_message ["a"; "b"])
             (emitted w0 (PStr "a", (Some [PInt 21], PNone))).
Proof.
  assert (H : 8 * Z.of_nat (List.length [x15]) <= total_bits [byte_component "a"])
    by (cbv; congruence).
  split; [exact H|].
  exact (CompositeField_parse_past_end unit sample_repr sample_memory
           (PStr "ab") (PInt 3)
           [byte_component "a"] [byte_component "b"] [x15] H 1%nat 1 0 []
           no_accumulate (sample_message ["a"; "b"]) w0).
Defined.

(** Sixteen declared bits over a buffer of one byte: nothing is raised,
    [a] is the byte and [b] is decoded from bits the buffer does not
    hold. *)
Lemma widths_beyond_buffer_not_rejected :
  8 * Z.of_nat (List.length [x15])
  < total_bits [byte_component "a"; byte_component "b"]
  /\ parse sample_repr sample_memory 2
           (sample_composite [byte_component "a"; byte_component "b"]) [x15]
           1 0 [] no_accumulate (sample_message ["a"; "b"]) w0
     = ({| acc := tt; warnings := []; stdout := [];
           yielded := [(PStr "a", (Some [PInt 21], PNone));
                       (PStr "b", (Some [PInt 0], PNone))] |}, Ok tt).
Proof. split; reflexivity. Qed.

Lemma MessageField_dispatch_witness :
  let rows := [Some (override_row "X" "A" "1"); Some (override_row "Y" "B" "1");
               Some (simple_row 2 "e")] in
  let d := {| row_field := plain_field 1 "d";
              __dynamic_lookup := [((PStr "A", PStr "1"), PStr "X");
                                   ((PStr "B", PStr "1"), PStr "Y")];
              references := [PStr "A"; PStr "B"] |} in
  MessageField sample_repr sample_float (fun s => s) (simple_row 1 "d") rows
               sample_types w0
  = (w0, Ok (FDynamic d))
  /\ truthy (components (simple_row 1 "d")) = false
  /\ is_override (peek rows) = true
  /\ exists overrides rest,
      rows = (map Some overrides ++ rest)%list
      /\ Forall named_without_number overrides
      /\ is_override (peek rest) = false
      /\ __dynamic_lookup d = lookup_of sample_repr overrides.
Proof.
  intros rows d.
  assert (H : MessageField sample_repr sample_float (fun s => s)
                (simple_row 1 "d") rows sample_types w0
              = (w0, Ok (FDynamic d))) by reflexivity.
  split; [exact H|].
  exact (MessageField_dispatch unit sample_repr sample_float (fun s => s)
           (simple_row 1 "d") rows sample_types w0 w0 (FDynamic d) H).
Defined.

(** Two components and a single bit width: the second list is not padded
    and the tuple of the component [b] is dropped. *)
Lemma short_second_list_drops_tuple :
  split_values sample_repr (PStr "a,b") = [PStr "a"; PStr "b"]
  /\ split_values sample_repr (PStr "3") = [PStr "3"]
  /\ _zip sample_repr [PStr "a,b"; PStr "3"] = [[PStr "a"; PStr "3"]].
Proof. split; [reflexivity|split; reflexivity]. Qed.



(** ** Further samples *)

(** A tracked name that is in the references map without any value: the
    lookup of its first value raises before the table is consulted. *)
Lemma reference_without_values_raises :
  parse sample_repr sample_memory 2
        (FDynamic (sample_dynamic [PStr "A"; PStr "B"])) [x07] 1 0
        [(PStr "A", (None, PNone))] no_accumulate (sample_message ["X"; "Y"]) w0
  = (w0, Raise TypeError).
Proof. reflexivity. Qed.

(** The scale and the offset of a composite row do not go through
    [single_int] but through [float], unguarded: a scale that is no
    number ends [CompositeField.__init__] with [ValueError]. *)
Lemma CompositeField_init_malformed_scale :
  forall (float_repr : spec_float -> string)
         (float_of_str : string -> option spec_float),
    float_of_str "x" = None ->
    CompositeField_init float_repr float_of_str malformed_composite_row w0
    = (w0, Raise ValueError).
Proof. intros float_repr float_of_str Hx. cbv. rewrite Hx. reflexivity. Qed.

(** A row whose scale is a list of numbers, which [int] does not convert:
    the [RowField] is built all the same, with a warning and the default
    scale. *)
Lemma RowField_init_malformed_scale :
  let row :=
    {| msg_name := PStr "m"; field_no := PInt 1; field_name := PStr "f";
       field_type := PStr "uint8"; array := PNone; components := PNone;
       scale := PStr "100,100"; offset := PNone; units := PNone; bits := PNone;
       accumulate := PNone; ref_name := PNone; ref_value := PNone;
       comment := PNone; products := PNone; example := PNone |} in
  RowField_init row sample_types w0
  = (warned w0 ("Cannot parse " ++ dquote ++ "%s" ++ dquote
                ++ " as a single integer") [PStr "100,100"],
     Ok (plain_field 1 "f")).
Proof. reflexivity. Qed.

(** ** The further properties on the sample data *)

Lemma parse_and_scale_string_value_witness :
  _is_scaled (scaled_delegate "a") = true
  /\ type_parse (constant_type [PStr "run"]) [] 1 0 = Some [PStr "run"]
  /\ existsb isinstance_str [PStr "run"] = true
  /\ exists e,
      _parse_and_scale (scaled_delegate "a") (constant_type [PStr "run"]) [] 1 0
                       no_accumulate w0
      = ({| acc := tt; warnings := []; stdout := ["x"]; yielded := [] |}, Raise e)
      /\ arithmetic e
      /\ (forall s rest, [PStr "run"] = PStr s :: rest -> e = TypeError).
Proof.
  repeat (split; [reflexivity|]).
  exact (parse_and_scale_string_value unit (scaled_delegate "a")
           (constant_type [PStr "run"]) [] 1 0 no_accumulate w0 [PStr "run"]
           eq_refl eq_refl eq_refl).
Defined.

Lemma parse_and_scale_zero_scale_witness :
  type_parse uint8 [x07] 1 0 = Some [PInt 7]
  /\ is_number (PInt 7) = true
  /\ snd (_parse_and_scale (ScaledField_init (PStr "a") PNone (PInt 0) PNone PNone)
                           uint8 [x07] 1 0 no_accumulate w0)
     = Raise ZeroDivisionError.
Proof.
  repeat (split; [reflexivity|]).
  exact (proj1 (proj2 (parse_and_scale_zero_scale unit (PStr "a") PNone PNone PNone
                         uint8 [x07] 1 0 no_accumulate w0 (PInt 7) []
                         eq_refl eq_refl))).
Defined.

Lemma RowField_init_fields_witness :
  RowField_init malformed_row sample_types w0
  = (warned w0 ("Cannot parse " ++ dquote ++ "%s" ++ dquote
                ++ " as a single integer") [PStr "100,100"],
     Ok (plain_field 1 "f"))
  /\ exists z, _scale (scaled (plain_field 1 "f")) = PInt z.
Proof.
  assert (H : RowField_init malformed_row sample_types w0
              = (warned w0 ("Cannot parse " ++ dquote ++ "%s" ++ dquote
                            ++ " as a single integer") [PStr "100,100"],
                 Ok (plain_field 1 "f"))) by reflexivity.
  split; [exact H|].
  exact (proj1 (proj2 (proj2 (proj2
           (RowField_init_fields unit malformed_row sample_types _ _ _ H))))).
Defined.

Lemma RowField_init_total_witness :
  sample_types (field_type malformed_row) = Some uint8
  /\ not_float (field_no malformed_row) = true
  /\ not_float (scale malformed_row) = true
  /\ not_float (offset malformed_row) = true
  /\ not_float (accumulate malformed_row) = true
  /\ exists w' r, RowField_init malformed_row sample_types w0 = (w', Ok r)
                  /\ type_ r = uint8.
Proof.
  repeat (split; [reflexivity|]).
  exact (RowField_init_total unit malformed_row sample_types uint8 w0
           eq_refl eq_refl eq_refl eq_refl eq_refl).
Defined.

Lemma CompositeField_init_components_witness :
  CompositeField_init sample_repr sample_float composite_row w0
  = (w0, Ok composite_ab)
  /\ map (fun p => name (snd p)) (__components composite_ab)
     = [PStr "a"; PStr "b"].
Proof.
  assert (H : CompositeField_init sample_repr sample_float composite_row w0
              = (w0, Ok composite_ab)) by reflexivity.
  split; [exact H|].
  exact (proj1 (proj2 (proj2
           (CompositeField_init_components unit sample_repr sample_float
              composite_row w0 w0 composite_ab H)))).
Defined.

Lemma CompositeField_init_without_bits_witness :
  truthy (bits (simple_row 1 "d")) = false
  /\ not_float (field_no (simple_row 1 "d")) = true
  /\ snd (CompositeField_init sample_repr sample_float (simple_row 1 "d") w0)
     = Raise TypeError.
Proof.
  repeat (split; [reflexivity|]).
  exact (CompositeField_init_without_bits unit sample_repr sample_float
           (simple_row 1 "d") w0 eq_refl eq_refl).
Defined.

Lemma MessageField_numeric_scaling_witness :
  MessageField sample_repr sample_float (fun s => s) composite_row []
               sample_types w0
  = (w0, Ok (FComposite composite_ab))
  /\ Forall (fun p => numeric_scaling (snd p)) (__components composite_ab).
Proof.
  assert (H : MessageField sample_repr sample_float (fun s => s) composite_row []
                sample_types w0
              = (w0, Ok (FComposite composite_ab))) by reflexivity.
  split; [exact H|].
  exact (MessageField_numeric_scaling unit sample_repr sample_float (fun s => s)
           composite_row [] sample_types w0 w0 (FComposite composite_ab) H).
Defined.

Lemma CompositeField_parse_endian_witness :
  (2 < -2 \/ 1 < 2)
  /\ parse sample_repr sample_memory 1 (FComposite composite_ab) [x15] 1 2 []
           no_accumulate (sample_message ["a"; "b"]) w0
     = (w0, Raise IndexError).
Proof.
  assert (H : 2 < -2 \/ 1 < 2) by (right; reflexivity).
  split; [exact H|].
  exact (CompositeField_parse_endian unit sample_repr sample_memory
           composite_ab 2 H 0%nat [x15] 1 [] no_accumulate
           (sample_message ["a"; "b"]) w0).
Defined.


Lemma CompositeField_parse_overflow_witness :
  __components (Build_CompositeField (PStr "ab") (PInt 3)
                  [byte_component "a"; byte_component "b"])
  = byte_component "a" :: [byte_component "b"]
  /\ byteorder_of 0 = Ok little
  /\ DelegateField_size (snd (byte_component "a")) (sample_message ["a"; "b"])
     = Ok 1
  /\ 0 <= Z.max ((8 + 7) / 8) 1
  /\ 256 ^ Z.max ((8 + 7) / 8) 1 <= from_bytes [x15; x02] little
  /\ parse sample_repr sample_memory 2
           (sample_composite [byte_component "a"; byte_component "b"])
           [x15; x02] 1 0 [] no_accumulate (sample_message ["a"; "b"]) w0
     = (w0, Raise OverflowError).
Proof.
  assert (H1 : 0 <= Z.max ((8 + 7) / 8) 1) by (cbv; congruence).
  assert (H2 : 256 ^ Z.max ((8 + 7) / 8) 1 <= from_bytes [x15; x02] little)
    by (cbv; congruence).
  repeat (split; [reflexivity|]).
  split; [exact H1|]. split; [exact H2|].
  exact (proj1 (CompositeField_parse_overflow unit sample_repr sample_memory
           (Build_CompositeField (PStr "ab") (PInt 3)
              [byte_component "a"; byte_component "b"])
           8 1 (snd (byte_component "a")) [byte_component "b"] [x15; x02] 0 little
           (sample_message ["a"; "b"]) eq_refl eq_refl eq_refl H1 H2
           1%nat 1 [] no_accumulate w0)).
Defined.

(** On a machine that cannot build an integer of [2 ^ 64] bits, a buffer
    of eight bytes [0xff] ends the call with [MemoryError] at the mask,
    whatever the width of the component. *)
Lemma eight_byte_buffer_out_of_memory :
  forall nbits : Z,
    parse sample_repr sample_memory 2
          (sample_composite [(nbits, snd (byte_component "a"))])
          [xff; xff; xff; xff; xff; xff; xff; xff] 1 0 [] no_accumulate
          (sample_message ["a"]) w0
    = (w0, Raise MemoryError).
Proof. intros nbits. reflexivity. Qed.

Lemma CompositeField_parse_untyped_component_witness :
  __components (Build_CompositeField (PStr "ab") (PInt 3) [byte_component "c"])
  = byte_component "c" :: []
  /\ byteorder_of 0 = Ok little
  /\ parse sample_repr sample_memory 2 (sample_composite [byte_component "c"])
           [x15] 1 0 [] no_accumulate sample_mixed_message w0
     = (w0, Raise AttributeError).
Proof.
  repeat (split; [reflexivity|]).
  exact (CompositeField_parse_untyped_component unit sample_repr sample_memory
           (Build_CompositeField (PStr "ab") (PInt 3) [byte_component "c"])
           8 (snd (byte_component "c")) [] 0 little sample_mixed_message
           eq_refl eq_refl 1%nat [x15] 1 [] no_accumulate w0).
Defined.

Lemma CompositeField_parse_entries_witness :
  Forall (row_component (sample_message ["a"; "b"])) (__components composite_ab)
  /\ exists entries,
      yielded (fst (parse sample_repr sample_memory 2 (FComposite composite_ab)
                          [x15] 1 0 [] no_accumulate
                          (sample_message ["a"; "b"]) w0))
      = (yielded w0 ++ entries)%list
      /\ map fst entries = [PStr "a"; PStr "b"].
Proof.
  assert (H : Forall (row_component (sample_message ["a"; "b"]))
                     (__components composite_ab)).
  { repeat constructor; eexists; split; reflexivity. }
  split; [exact H|].
  destruct (CompositeField_parse_entries unit sample_repr sample_memory
              composite_ab (sample_message ["a"; "b"]) H 0%nat [x15] 1 0 []
              no_accumulate w0)
    as (entries & Hy & Hnames).
  exists entries. split; [exact Hy|exact Hnames].
Defined.


Lemma DynamicField_parse_reference_without_values_witness :
  references (sample_dynamic [PStr "A"; PStr "B"])
  = ([] ++ PStr "A" :: [PStr "B"])%list
  /\ Forall (unresolved (sample_dynamic [PStr "A"; PStr "B"])
                        valueless_references) []
  /\ dict_get py_eqb valueless_references (PStr "A") = Some (@None (list pyval), PNone)
  /\ parse sample_repr sample_memory 2
           (FDynamic (sample_dynamic [PStr "A"; PStr "B"])) [x07] 1 0
           valueless_references no_accumulate (sample_message ["X"; "Y"]) w0
     = (w0, Raise TypeError).
Proof.
  split; [reflexivity|]. split; [constructor|]. split; [reflexivity|].
  exact (DynamicField_parse_reference_without_values unit sample_repr
           sample_memory
           (sample_dynamic [PStr "A"; PStr "B"]) valueless_references
           [] [PStr "B"] (PStr "A") None PNone eq_refl (Forall_nil _) eq_refl
           1%nat [x07] 1 0 no_accumulate (sample_message ["X"; "Y"]) w0).
Defined.

Lemma DynamicField_parse_cycle_witness :
  references cyclic_dynamic = ([] ++ PStr "A" :: [])%list
  /\ Forall (unresolved cyclic_dynamic [(PStr "A", (Some [PInt 1], PNone))]) []
  /\ dict_in py_eqb [(PStr "A", (Some [PInt 1], PNone))] (PStr "A") = true
  /\ first_value [(PStr "A", (Some [PInt 1], PNone))] (PStr "A") = Ok (PInt 1)
  /\ dict_get key_eqb (__dynamic_lookup cyclic_dynamic) (PStr "A", PInt 1)
     = Some (PStr "d")
  /\ cyclic_message (PStr "d") = Some (FDynamic cyclic_dynamic)
  /\ parse sample_repr sample_memory 1000 (FDynamic cyclic_dynamic) [x07] 1 0
           [(PStr "A", (Some [PInt 1], PNone))] no_accumulate cyclic_message w0
     = (w0, Raise RecursionError).
Proof.
  split; [reflexivity|]. split; [constructor|].
  repeat (split; [reflexivity|]).
  exact (DynamicField_parse_cycle unit sample_repr sample_memory cyclic_dynamic
           [(PStr "A", (Some [PInt 1], PNone))] [] [] (PStr "A") (PInt 1) (PStr "d")
           cyclic_message eq_refl (Forall_nil _) eq_refl eq_refl eq_refl eq_refl
           1000%nat [x07] 1 0 no_accumulate w0).
Defined.

Lemma lookup_of_last_row_witness :
  In [PStr "A"; PStr "1"]
     (_zip sample_repr [ref_name (override_row "Y" "A" "1");
                        ref_value (override_row "Y" "A" "1")])
  /\ dict_get key_eqb
              (lookup_of sample_repr
                 ([override_row "X" "A" "1"] ++ [override_row "Y" "A" "1"]))
              (PStr "A", PStr "1")
     = Some (PStr "Y").
Proof.
  assert (H : In [PStr "A"; PStr "1"]
                 (_zip sample_repr [ref_name (override_row "Y" "A" "1");
                                    ref_value (override_row "Y" "A" "1")]))
    by (left; reflexivity).
  split; [exact H|].
  exact (lookup_of_last_row sample_repr [override_row "X" "A" "1"]
           (override_row "Y" "A" "1") (PStr "A") (PStr "1") H).
Defined.

Lemma DynamicField_init_consistent_witness :
  (forall l : list pyval, Permutation ((fun s => s) l) l)
  /\ DynamicField_init sample_repr (fun s => s) (simple_row 1 "d")
       [Some (override_row "X" "A" "1"); Some (override_row "Y" "B" "1");
        Some (override_row "Z" "A" "2")] sample_types w0
     = (w0, Ok {| row_field := plain_field 1 "d";
                  __dynamic_lookup := [((PStr "A", PStr "1"), PStr "X");
                                       ((PStr "B", PStr "1"), PStr "Y");
                                       ((PStr "A", PStr "2"), PStr "Z")];
                  references := [PStr "A"; PStr "B"] |})
  /\ NoDup [PStr "A"; PStr "B"].
Proof.
  assert (Hperm : forall l : list pyval, Permutation ((fun s => s) l) l)
    by (intros l; apply Permutation_refl).
  assert (H : DynamicField_init sample_repr (fun s => s) (simple_row 1 "d")
                [Some (override_row "X" "A" "1"); Some (override_row "Y" "B" "1");
                 Some (override_row "Z" "A" "2")] sample_types w0
              = (w0, Ok {| row_field := plain_field 1 "d";
                           __dynamic_lookup := [((PStr "A", PStr "1"), PStr "X");
                                                ((PStr "B", PStr "1"), PStr "Y");
                                                ((PStr "A", PStr "2"), PStr "Z")];
                           references := [PStr "A"; PStr "B"] |}))
    by reflexivity.
  split; [exact Hperm|]. split; [exact H|].
  exact (proj1 (DynamicField_init_consistent unit sample_repr (fun s => s)
                  (simple_row 1 "d") _ sample_types w0 w0 _ Hperm H)).
Defined.

Lemma CompositeField_init_default_scale_witness :
  CompositeField_init sample_repr sample_float composite_row w0
  = (w0, Ok composite_ab)
  /\ nth_error (__components composite_ab) 1
     = Some (5, ScaledField_init (PStr "b") PNone PNone PNone PNone)
  /\ nth 1 (split_values sample_repr (scale composite_row)) PNone = PNone
  /\ nth 1 (split_values sample_repr (offset composite_row)) PNone = PNone
  /\ _is_scaled (ScaledField_init (PStr "b") PNone PNone PNone PNone) = false.
Proof.
  repeat (split; [reflexivity|]).
  exact (proj2 (proj2
           (CompositeField_init_default_scale unit sample_repr sample_float
              composite_row w0 w0 composite_ab 1%nat
              (5, ScaledField_init (PStr "b") PNone PNone PNone PNone)
              eq_refl eq_refl eq_refl eq_refl))).
Defined.
